(** * Numerical integration in one dimension

    A shallow embedding of the quadrature routines of
    [Python_and_Numerical_Integration.ipynb]: the right-endpoint Riemann
    sum, the two formulations of the trapezoidal rule, Simpson's rule and
    the numeric differentiator built on [scipy.misc.derivative].

    Python floats are read as exact real numbers ([R]), Python integers as
    [Z], and a Python exception as the [Raise] branch of [result].  An
    integrand returns a Python number, an [int] or a [float].  The
    Python and NumPy primitives the notebook calls ([float] division,
    [range], the builtin [sum], [np.vectorize], [scipy.misc.derivative])
    are embedded in [Module Py]; the notebook's own functions follow, one
    definition per [def], statement by statement. *)

From Stdlib Require Import Reals.Reals ZArith.ZArith Lists.List.
From Stdlib Require Import micromega.Lia micromega.Lra.
Import ListNotations.

Open Scope R_scope.

(** ** The Python layer *)

Module Py.

(** The two exceptions the notebook's functions can run into. *)
Inductive exn : Set :=
| ZeroDivisionError
| ValueError.

(** A computation either returns a value or raises. *)
Inductive result (A : Type) : Type :=
| Ok (v : A)
| Raise (e : exn).

Arguments Ok {A} v.
Arguments Raise {A} e.

Definition bind {A B : Type} (m : result A) (k : A -> result B) : result B :=
  match m with
  | Ok v => k v
  | Raise e => Raise e
  end.

Definition returns {A : Type} (m : result A) : Prop := exists v, m = Ok v.

Definition raises {A : Type} (m : result A) : Prop := exists e, m = Raise e.

(** [x / y] on Python floats: a zero divisor raises [ZeroDivisionError]. *)
Definition float_div (x y : R) : result R :=
  if Req_dec_T y 0 then Raise ZeroDivisionError else Ok (x / y).

(** [range(start, stop, step)] for a positive [step] (the notebook uses the
    steps 1 and 2 only): [start, start+step, ...] below [stop], empty when
    [stop <= start]. *)
Definition range (start stop step : Z) : list Z :=
  map (fun k => (start + step * Z.of_nat k)%Z)
      (seq 0 (Z.to_nat ((stop - start + step - 1) / step))).

(** The builtin [sum]: starts from 0 and adds the items from left to right. *)
Definition sum (ys : list R) : R := fold_left Rplus ys 0.

(** A number an integrand hands back: a Python [int] or a [float]. *)
Inductive pynum : Type :=
| PyInt (z : Z)
| PyFloat (x : R).

(** [float(v)]. *)
Definition to_float (v : pynum) : R :=
  match v with
  | PyInt z => IZR z
  | PyFloat x => x
  end.

(** [int(x)] on a float: the fractional part is dropped, towards zero. *)
Definition Rtrunc (x : R) : Z :=
  if Rle_dec 0 x then Int_part x else (- Int_part (- x))%Z.

(** [int(v)]. *)
Definition to_int (v : pynum) : Z :=
  match v with
  | PyInt z => z
  | PyFloat x => Rtrunc x
  end.

(** The cast of one output [v] to the dtype of the output [d]: to an
    integer when [d] is an [int], to a float when [d] is a [float]. *)
Definition cast_as (d v : pynum) : R :=
  match d with
  | PyInt _ => IZR (to_int v)
  | PyFloat _ => to_float v
  end.

(** [np.vectorize(f)] called on a list.  Without [otypes] NumPy finds the
    output type by calling [f] on the first item, and refuses an input of
    size 0 with [ValueError: cannot call `vectorize` on size 0 inputs
    unless `otypes` is set]; otherwise the result holds [f] of every item,
    in order, each cast to the dtype of [f] of the first item. *)
Definition np_vectorize (f : R -> pynum) (xs : list R) : result (list R) :=
  match xs with
  | [] => Raise ValueError
  | x0 :: _ => Ok (map (fun x => cast_as (f x0) (f x)) xs)
  end.

(** [np.vectorize(f)] called on one scalar: an input of size 1, whose
    dtype is that of its own output. *)
Definition np_vectorize0 (f : R -> pynum) (x : R) : R := to_float (f x).


(** An integrand that returns a float at every point. *)
Definition floats (g : R -> R) : R -> pynum := fun x => PyFloat (g x).

(** [scipy.misc.derivative(func, x0, dx)] with its defaults [n=1],
    [order=3]: the weights are [array([-1,0,1])/2.0], [ho = order >> 1 = 1],
    the loop adds [weights[k]*func(x0+(k-ho)*dx)] to [val = 0.0] for
    [k = 0, 1, 2], and the result is [val / dx]. *)
Definition derivative (func : R -> R) (x0 dx : R) : R :=
  let weights := map (fun w => w / 2) [-1; 0; 1] in
  let ho := 1%Z in
  let val :=
    fold_left
      (fun val k => val + nth (Z.to_nat k) weights 0 * func (x0 + IZR (k - ho) * dx))
      (range 0 3 1) 0 in
  val / dx.

End Py.

Import Py.

Notation "x <- m ;; k" := (bind m (fun x => k))
  (at level 61, m at next level, right associativity).

(** ** The notebook's functions *)

Definition F_sin (x : R) : R := sin x.

Definition dF_dx (x : R) : R :=
  let dFdx := fun x => derivative F_sin x (1 / 10000) in
  dFdx x.

Definition sin_der (x : R) : R := cos x.

Definition Vect_dF_dx : list R -> result (list R) :=
  np_vectorize (floats dF_dx).

Definition Vect_sin_der : list R -> result (list R) :=
  np_vectorize (floats sin_der).

(** The density of the standard normal distribution. *)
Definition nor (x : R) : R := exp (- (x ^ 2) / 2) / sqrt (2 * PI).

Definition Integral_Riemann (f : R -> pynum) (a b : R) (n : Z) : result R :=
  let enne := IZR n in
  h <- float_div (b - a) enne ;;
  let xvals := map (fun i => a + IZR i * h) (range 1 (n + 1) 1) in
  yvals <- np_vectorize f xvals ;;
  Ok (sum yvals * h).

Definition Integral_Trapezoid1 (f : R -> pynum) (a b : R) (n : Z) : result R :=
  let enne := IZR n in
  h <- float_div (b - a) enne ;;
  let xvals := map (fun i => a + IZR i * h) (range 1 n 1) in
  yvals <- np_vectorize f xvals ;;
  Ok ((sum yvals + 0.5 * (np_vectorize0 f a + np_vectorize0 f b)) * h).

Definition Integral_Trapezoid2 (f : R -> pynum) (a b : R) (n : Z) : result R :=
  let enne := IZR n in
  h <- float_div (b - a) enne ;;
  let xvals1 := map (fun i => a + IZR i * h) (range 0 n 1) in
  let xvals2 := map (fun i => a + IZR i * h) (range 1 (n + 1) 1) in
  yvals1 <- np_vectorize f xvals1 ;;
  yvals2 <- np_vectorize f xvals2 ;;
  Ok ((sum yvals1 + sum yvals2) * 0.5 * h).

Definition Integral_SimpsonRule (f : R -> pynum) (a b : R) (n : Z) : result R :=
  let enne := IZR n in
  h <- float_div (b - a) enne ;;
  let xvalsOdd := map (fun i => a + IZR i * h) (range 1 n 2) in
  let xvalsEven := map (fun i => a + IZR i * h) (range 2 (n - 1) 2) in
  yvalsOdd <- np_vectorize f xvalsOdd ;;
  yvalsEven <- np_vectorize f xvalsEven ;;
  Ok ((4 / 3 * sum yvalsOdd + 2 / 3 * sum yvalsEven
       + 1 / 3 * np_vectorize0 f a + 1 / 3 * np_vectorize0 f b) * h).

(** ** Mathematical sums and polynomials used in the statements *)

(** [Sigma g m] is [g 0 + g 1 + ... + g (m-1)], the empty sum being 0. *)
Fixpoint Sigma (g : nat -> R) (m : nat) : R :=
  match m with
  | O => 0
  | S k => Sigma g k + g k
  end.

(** The uniform step of the partition of [a, b] in [n] parts. *)
Definition Dx (a b : R) (n : Z) : R := (b - a) / IZR n.

(** The [i]-th abscissa of that partition. *)
Definition abscissa (a b : R) (n : Z) (i : Z) : R := a + IZR i * Dx a b n.

(** A polynomial of degree at most 3 and its antiderivative vanishing at 0. *)
Definition cubic (c0 c1 c2 c3 x : R) : R :=
  c0 + c1 * x + c2 * x ^ 2 + c3 * x ^ 3.

Definition cubic_primitive (c0 c1 c2 c3 x : R) : R :=
  c0 * x + c1 * x ^ 2 / 2 + c2 * x ^ 3 / 3 + c3 * x ^ 4 / 4.

(** The centered finite difference of [F] at [x] with step [h]. *)
Definition centered_difference (F : R -> R) (x h : R) : R :=
  (F (x + h) - F (x - h)) / (2 * h).

(** The exception a non-positive [n] leads to: the division by
    [float(0)], or the empty list handed to [np.vectorize]. *)
Definition exn_of_nonpositive (n : Z) : exn :=
  if (n =? 0)%Z then ZeroDivisionError else ValueError.

(** The value at [x] of the samples of a list whose first point is [x0]. *)
Definition sample (f : R -> pynum) (x0 x : R) : R := cast_as (f x0) (f x).

(** The integrand [lambda x: max(0, x - 0.5)]: the [int] 0 unless
    [x - 0.5 > 0], and the float [x - 0.5] then. *)
Definition clip (x : R) : pynum :=
  if Rle_dec (x - 1 / 2) 0 then PyInt 0 else PyFloat (x - 1 / 2).

(** ** The Python layer: basic facts *)

Section PyFacts.

Lemma float_div_nonzero (x : R) (n : Z) :
  n <> 0%Z -> float_div x (IZR n) = Ok (x / IZR n).
Proof.
  intros Hn. unfold float_div.
  destruct (Req_dec_T (IZR n) 0) as [E | _]; [| reflexivity].
  apply eq_IZR_R0 in E. contradiction.
Qed.

Lemma float_div_zero (x : R) : float_div x (IZR 0) = Raise ZeroDivisionError.
Proof.
  unfold float_div.
  destruct (Req_dec_T (IZR 0) 0) as [_ | N]; [reflexivity | now elim N].
Qed.

Lemma range_step1 (lo hi : Z) :
  range lo hi 1 = map (fun k => (lo + Z.of_nat k)%Z) (seq 0 (Z.to_nat (hi - lo))).
Proof.
  unfold range.
  replace ((hi - lo + 1 - 1) / 1)%Z with (hi - lo)%Z
    by (rewrite Z.div_1_r; lia).
  apply map_ext. intros k. lia.
Qed.

Lemma range_step2 (lo hi : Z) :
  range lo hi 2
  = map (fun k => (lo + 2 * Z.of_nat k)%Z) (seq 0 (Z.to_nat ((hi - lo + 1) / 2))).
Proof.
  unfold range.
  replace (hi - lo + 2 - 1)%Z with (hi - lo + 1)%Z by lia.
  reflexivity.
Qed.

Lemma range_empty (lo hi step : Z) :
  (0 < step)%Z -> (hi <= lo)%Z -> range lo hi step = [].
Proof.
  intros Hs Hle. unfold range.
  assert (H : ((hi - lo + step - 1) / step <= 0)%Z).
  { assert (((hi - lo + step - 1) / step < 1)%Z); [| lia].
    apply Z.div_lt_upper_bound; lia. }
  replace (Z.to_nat ((hi - lo + step - 1) / step)) with 0%nat by lia.
  reflexivity.
Qed.

(** [range] holds the numbers [start + step*k], [k >= 0], below [stop]. *)
Lemma range_spec (lo hi step i : Z) :
  (0 < step)%Z ->
  In i (range lo hi step)
  <-> exists k, (0 <= k)%Z /\ i = (lo + step * k)%Z /\ (i < hi)%Z.
Proof.
  intros Hs. unfold range. rewrite in_map_iff.
  set (q := ((hi - lo + step - 1) / step)%Z).
  assert (Hq : forall k, (k < q <-> lo + step * k < hi)%Z).
  { intros k. unfold q. split; intros H.
    - assert (step * (k + 1) <= hi - lo + step - 1)%Z; [| lia].
      transitivity (step * ((hi - lo + step - 1) / step))%Z.
      + apply Z.mul_le_mono_nonneg_l; lia.
      + apply Z.mul_div_le. assumption.
    - assert (k + 1 <= (hi - lo + step - 1) / step)%Z; [| lia].
      apply Z.div_le_lower_bound; lia. }
  split.
  - intros (k & <- & Hk). apply in_seq in Hk.
    exists (Z.of_nat k). repeat split; [lia |].
    apply Hq. lia.
  - intros (k & Hk & -> & Hlt). exists (Z.to_nat k).
    split; [f_equal; lia |].
    apply in_seq. apply Hq in Hlt. lia.
Qed.

Example range_1_5_2 : range 1 5 2 = [1; 3]%Z.
Proof. reflexivity. Qed.

Example range_2_4_2 : range 2 4 2 = [2]%Z.
Proof. reflexivity. Qed.

Example range_2_1_2 : range 2 1 2 = [].
Proof. reflexivity. Qed.

Example range_1_4_1 : range 1 4 1 = [1; 2; 3]%Z.
Proof. reflexivity. Qed.

Lemma sum_app (l : list R) (x : R) : sum (l ++ [x]) = sum l + x.
Proof. unfold sum. rewrite fold_left_app. reflexivity. Qed.

Lemma sum_map_seq (g : nat -> R) (m : nat) :
  sum (map g (seq 0 m)) = Sigma g m.
Proof.
  induction m as [| m IH]; [reflexivity |].
  rewrite seq_S, map_app, Nat.add_0_l. simpl map.
  rewrite sum_app, IH. reflexivity.
Qed.

(** The sum of [f] over the points [a + i*h], [i] in a list of indices
    given as [lo + step*k] for [k < m]. *)
Lemma sum_points (f : R -> R) (a h : R) (ix : nat -> Z) (m : nat) :
  sum (map f (map (fun i => a + IZR i * h) (map ix (seq 0 m))))
  = Sigma (fun k => f (a + IZR (ix k) * h)) m.
Proof. rewrite !map_map. apply sum_map_seq. Qed.

Lemma np_vectorize_nonempty (f : R -> R) (xs : list R) :
  xs <> [] -> np_vectorize (floats f) xs = Ok (map f xs).
Proof. destruct xs; [congruence | reflexivity]. Qed.


Lemma np_vectorize_empty (f : R -> pynum) :
  np_vectorize f [] = Raise ValueError.
Proof. reflexivity. Qed.

(** On a list of points [pt (ix 0), pt (ix 1), ...] every output is cast
    to the dtype of the output at the first point. *)
Lemma np_vectorize_points (f : R -> pynum) (pt : Z -> R) (ix : nat -> Z)
      (m : nat) :
  (0 < m)%nat ->
  np_vectorize f (map pt (map ix (seq 0 m)))
  = Ok (map (fun x => cast_as (f (pt (ix 0%nat))) (f x))
            (map pt (map ix (seq 0 m)))).
Proof. destruct m; [lia | reflexivity]. Qed.

Lemma cast_as_self (v : pynum) : cast_as v v = to_float v.
Proof. destruct v; reflexivity. Qed.

Lemma points_nonempty (a h : R) (ix : nat -> Z) (m : nat) :
  (0 < m)%nat -> map (fun i => a + IZR i * h) (map ix (seq 0 m)) <> [].
Proof. destruct m; [lia | discriminate]. Qed.

End PyFacts.

(** ** Facts on [Sigma] *)

Section SigmaFacts.

Lemma Sigma_S (g : nat -> R) (m : nat) : Sigma g (S m) = Sigma g m + g m.
Proof. reflexivity. Qed.

Lemma Sigma_ext (g g' : nat -> R) (m : nat) :
  (forall k, (k < m)%nat -> g k = g' k) -> Sigma g m = Sigma g' m.
Proof.
  induction m as [| m IH]; intros H; [reflexivity |].
  simpl. rewrite IH, H by (intros; try apply H; lia). reflexivity.
Qed.

Lemma Sigma_shift (g : nat -> R) (m : nat) :
  Sigma g (S m) = g 0%nat + Sigma (fun k => g (S k)) m.
Proof.
  induction m as [| m IH]; [simpl; lra |].
  change (Sigma g (S (S m))) with (Sigma g (S m) + g (S m)).
  rewrite IH. simpl. lra.
Qed.

Lemma Sigma_rev (g : nat -> R) (m : nat) :
  Sigma (fun k => g (m - 1 - k)%nat) m = Sigma g m.
Proof.
  induction m as [| m IH]; [reflexivity |].
  rewrite Sigma_shift, Sigma_S.
  replace (S m - 1 - 0)%nat with m by lia.
  rewrite <- IH, Rplus_comm. f_equal.
  apply Sigma_ext. intros k Hk. f_equal. lia.
Qed.

Lemma Sigma_const (c : R) (m : nat) : Sigma (fun _ => c) m = INR m * c.
Proof.
  induction m as [| m IH]; [simpl; lra |].
  rewrite S_INR. simpl. rewrite IH. lra.
Qed.

Lemma Sigma_sum_f_R0 (g : nat -> R) (m : nat) :
  Sigma g (S m) = sum_f_R0 g m.
Proof.
  induction m as [| m IH]; [simpl; lra |].
  change (Sigma g (S (S m))) with (Sigma g (S m) + g (S m)).
  rewrite IH. reflexivity.
Qed.

Lemma Sigma_sum_f_1 (g : nat -> R) (m : nat) :
  (1 <= m)%nat -> Sigma (fun k => g (S k)) m = sum_f 1 m g.
Proof.
  intros Hm. unfold sum_f.
  destruct m as [| m]; [lia |].
  rewrite Sigma_sum_f_R0. replace (S m - 1)%nat with m by lia.
  induction m as [| m IH]; simpl.
  - reflexivity.
  - rewrite IH by lia. do 2 f_equal. lia.
Qed.

End SigmaFacts.

(** ** What each rule evaluates to, wherever it returns *)

Section Evaluation.

Variables a b : R.

Ltac eval_any Hn :=
  rewrite float_div_nonzero by lia; cbn [bind];
  repeat (rewrite np_vectorize_points by lia; cbn [bind]);
  rewrite ?sum_points; reflexivity.

Lemma Integral_Riemann_eval_any (f : R -> pynum) (n : Z) :
  (1 <= n)%Z ->
  Integral_Riemann f a b n
  = Ok (Sigma (fun k => sample f (abscissa a b n 1)
                          (abscissa a b n (1 + Z.of_nat k)))
              (Z.to_nat n) * Dx a b n).
Proof.
  intros Hn. unfold Integral_Riemann, sample, abscissa, Dx.
  rewrite range_step1. replace (n + 1 - 1)%Z with n by lia.
  eval_any Hn.
Qed.

Lemma Integral_Trapezoid1_eval_any (f : R -> pynum) (n : Z) :
  (2 <= n)%Z ->
  Integral_Trapezoid1 f a b n
  = Ok ((Sigma (fun k => sample f (abscissa a b n 1)
                           (abscissa a b n (1 + Z.of_nat k)))
               (Z.to_nat (n - 1))
         + 0.5 * (to_float (f a) + to_float (f b))) * Dx a b n).
Proof.
  intros Hn. unfold Integral_Trapezoid1, np_vectorize0, sample, abscissa, Dx.
  rewrite range_step1.
  eval_any Hn.
Qed.

Lemma Integral_Trapezoid2_eval_any (f : R -> pynum) (n : Z) :
  (1 <= n)%Z ->
  Integral_Trapezoid2 f a b n
  = Ok ((Sigma (fun k => sample f (abscissa a b n 0)
                           (abscissa a b n (0 + Z.of_nat k)))
               (Z.to_nat n)
         + Sigma (fun k => sample f (abscissa a b n 1)
                             (abscissa a b n (1 + Z.of_nat k)))
                 (Z.to_nat n))
        * 0.5 * Dx a b n).
Proof.
  intros Hn. unfold Integral_Trapezoid2, sample, abscissa, Dx.
  rewrite !range_step1.
  replace (n + 1 - 1)%Z with n by lia. replace (n - 0)%Z with n by lia.
  eval_any Hn.
Qed.

Lemma Integral_SimpsonRule_eval_any (f : R -> pynum) (n : Z) :
  (4 <= n)%Z ->
  Integral_SimpsonRule f a b n
  = Ok ((4 / 3 * Sigma (fun k => sample f (abscissa a b n 1)
                                   (abscissa a b n (1 + 2 * Z.of_nat k)))
                       (Z.to_nat (n / 2))
         + 2 / 3 * Sigma (fun k => sample f (abscissa a b n 2)
                                     (abscissa a b n (2 + 2 * Z.of_nat k)))
                         (Z.to_nat ((n - 2) / 2))
         + 1 / 3 * to_float (f a) + 1 / 3 * to_float (f b)) * Dx a b n).
Proof.
  intros Hn.
  unfold Integral_SimpsonRule, np_vectorize0, sample, abscissa, Dx.
  rewrite !range_step2.
  replace (n - 1 + 1)%Z with n by lia.
  replace (n - 1 - 2 + 1)%Z with (n - 2)%Z by lia.
  assert (2 <= n / 2)%Z by (apply Z.div_le_lower_bound; lia).
  assert (1 <= (n - 2) / 2)%Z by (apply Z.div_le_lower_bound; lia).
  eval_any Hn.
Qed.

Variable f : R -> R.

Lemma Integral_Riemann_eval (n : Z) :
  (1 <= n)%Z ->
  Integral_Riemann (floats f) a b n
  = Ok (Sigma (fun k => f (abscissa a b n (1 + Z.of_nat k))) (Z.to_nat n)
        * Dx a b n).
Proof. intros Hn. now rewrite Integral_Riemann_eval_any. Qed.

Lemma Integral_Trapezoid1_eval (n : Z) :
  (2 <= n)%Z ->
  Integral_Trapezoid1 (floats f) a b n
  = Ok ((Sigma (fun k => f (abscissa a b n (1 + Z.of_nat k)))
               (Z.to_nat (n - 1))
         + 0.5 * (f a + f b)) * Dx a b n).
Proof. intros Hn. now rewrite Integral_Trapezoid1_eval_any. Qed.

Lemma Integral_Trapezoid2_eval (n : Z) :
  (1 <= n)%Z ->
  Integral_Trapezoid2 (floats f) a b n
  = Ok ((Sigma (fun k => f (abscissa a b n (0 + Z.of_nat k))) (Z.to_nat n)
         + Sigma (fun k => f (abscissa a b n (1 + Z.of_nat k))) (Z.to_nat n))
        * 0.5 * Dx a b n).
Proof. intros Hn. now rewrite Integral_Trapezoid2_eval_any. Qed.

Lemma Integral_SimpsonRule_eval (n : Z) :
  (4 <= n)%Z ->
  Integral_SimpsonRule (floats f) a b n
  = Ok ((4 / 3 * Sigma (fun k => f (abscissa a b n (1 + 2 * Z.of_nat k)))
                       (Z.to_nat (n / 2))
         + 2 / 3 * Sigma (fun k => f (abscissa a b n (2 + 2 * Z.of_nat k)))
                         (Z.to_nat ((n - 2) / 2))
         + 1 / 3 * f a + 1 / 3 * f b) * Dx a b n).
Proof. intros Hn. now rewrite Integral_SimpsonRule_eval_any. Qed.

End Evaluation.

(** ** The Riemann sum *)

Section Riemann.

Variable f : R -> R.
Variables a b : R.

Lemma IZR_succ_of_nat (k : nat) : IZR (1 + Z.of_nat k) = INR (S k).
Proof. rewrite INR_IZR_INZ. f_equal. lia. Qed.

Lemma Integral_Riemann_sum_f (n : Z) :
  (1 <= n)%Z ->
  Integral_Riemann (floats f) a b n
  = Ok (Dx a b n * sum_f 1 (Z.to_nat n) (fun i => f (a + INR i * Dx a b n))).
Proof.
  intros Hn. rewrite Integral_Riemann_eval by assumption.
  rewrite <- Sigma_sum_f_1 by lia. f_equal.
  rewrite Rmult_comm. f_equal.
  apply Sigma_ext. intros k _. unfold abscissa.
  now rewrite IZR_succ_of_nat.
Qed.

Lemma Integral_Riemann_ext (g : R -> R) (n : Z) :
  (1 <= n)%Z ->
  (forall i, (1 <= i <= n)%Z -> g (abscissa a b n i) = f (abscissa a b n i)) ->
  Integral_Riemann (floats g) a b n = Integral_Riemann (floats f) a b n.
Proof.
  intros Hn Hg. rewrite !Integral_Riemann_eval by assumption.
  do 2 f_equal. apply Sigma_ext. intros k Hk. apply Hg. lia.
Qed.

End Riemann.

(** ** The partition *)

Section Partition.

Variables a b : R.

Lemma abscissa_0 (n : Z) : abscissa a b n 0 = a.
Proof. unfold abscissa. lra. Qed.

Lemma abscissa_n (n : Z) : n <> 0%Z -> abscissa a b n n = b.
Proof.
  intros Hn. unfold abscissa, Dx.
  assert (IZR n <> 0) by (intros E; now apply eq_IZR_R0 in E).
  field. assumption.
Qed.

Lemma Dx_swap (n : Z) : Dx b a n = - Dx a b n.
Proof. unfold Dx. unfold Rdiv. lra. Qed.

(** Seen from [b] with the step reversed, the [i]-th point is the
    [(n-i)]-th point seen from [a]. *)
Lemma abscissa_swap (n i : Z) :
  n <> 0%Z -> abscissa b a n i = abscissa a b n (n - i).
Proof.
  intros Hn. unfold abscissa, Dx. rewrite minus_IZR.
  assert (IZR n <> 0) by (intros E; now apply eq_IZR_R0 in E).
  field. assumption.
Qed.

End Partition.

(** ** The trapezoidal rule *)

Section Trapezoid.

Variable f : R -> R.
Variables a b : R.

(** For [n >= 2] the first formulation returns
    [Dx * (0.5*f(a) + 0.5*f(b) + f x_1 + ... + f x_(n-1))]. *)
Lemma Integral_Trapezoid1_sum_f (n : Z) :
  (2 <= n)%Z ->
  Integral_Trapezoid1 (floats f) a b n
  = Ok (Dx a b n
        * (0.5 * f a + 0.5 * f b
           + sum_f 1 (Z.to_nat (n - 1)) (fun i => f (a + INR i * Dx a b n)))).
Proof.
  intros Hn. rewrite Integral_Trapezoid1_eval by assumption.
  rewrite <- Sigma_sum_f_1 by lia. f_equal.
  rewrite (Sigma_ext _ (fun k => f (a + INR (S k) * Dx a b n))).
  - lra.
  - intros k _. unfold abscissa. now rewrite IZR_succ_of_nat.
Qed.

(** With one subdivision the list of interior points is empty and
    [np.vectorize] refuses it. *)
Lemma Integral_Trapezoid1_one : Integral_Trapezoid1 (floats f) a b 1 = Raise ValueError.
Proof.
  unfold Integral_Trapezoid1.
  rewrite float_div_nonzero by lia. reflexivity.
Qed.

(** The second formulation handles one subdivision: it returns the area
    of the single trapezoid. *)
Lemma Integral_Trapezoid2_one :
  Integral_Trapezoid2 (floats f) a b 1 = Ok (0.5 * (f a + f b) * (b - a)).
Proof.
  rewrite Integral_Trapezoid2_eval by lia. f_equal.
  change (Z.to_nat 1) with 1%nat. cbn [Sigma Z.of_nat].
  change (0 + 0)%Z with 0%Z. change (1 + 0)%Z with 1%Z.
  rewrite abscissa_0, abscissa_n by lia.
  unfold Dx. lra.
Qed.

(** The sums of the left-shifted and of the right-shifted sequence share
    the interior points. *)
Lemma Sigma_left_right (g : Z -> R) (m : nat) :
  Sigma (fun k => g (0 + Z.of_nat k)%Z) (S m)
  + Sigma (fun k => g (1 + Z.of_nat k)%Z) (S m)
  = 2 * Sigma (fun k => g (1 + Z.of_nat k)%Z) m
    + g 0%Z + g (Z.of_nat (S m)).
Proof.
  rewrite Sigma_shift.
  rewrite (Sigma_ext (fun k => g (0 + Z.of_nat (S k))%Z)
                     (fun k => g (1 + Z.of_nat k)%Z))
    by (intros; f_equal; lia).
  rewrite Sigma_S.
  replace (1 + Z.of_nat m)%Z with (Z.of_nat (S m)) by lia.
  change (0 + Z.of_nat 0)%Z with 0%Z. lra.
Qed.

(** From two subdivisions on, the two formulations agree. *)
Lemma Integral_Trapezoid_agree (n : Z) :
  (2 <= n)%Z -> Integral_Trapezoid1 (floats f) a b n = Integral_Trapezoid2 (floats f) a b n.
Proof.
  intros Hn.
  rewrite Integral_Trapezoid1_eval, Integral_Trapezoid2_eval by lia.
  f_equal.
  replace (Z.to_nat n) with (S (Z.to_nat (n - 1))) by lia.
  rewrite (Sigma_left_right (fun i => f (abscissa a b n i))).
  replace (Z.of_nat (S (Z.to_nat (n - 1)))) with n by lia.
  rewrite abscissa_0, abscissa_n by lia. lra.
Qed.

(** From two subdivisions on, the Riemann sum exceeds the trapezoid value
    by the boundary correction [(Dx/2) * (f(b) - f(a))]. *)
Lemma Integral_Riemann_minus_Trapezoid1 (n : Z) :
  (2 <= n)%Z ->
  exists r t,
    Integral_Riemann (floats f) a b n = Ok r
    /\ Integral_Trapezoid1 (floats f) a b n = Ok t
    /\ r - t = Dx a b n / 2 * (f b - f a).
Proof.
  intros Hn. eexists. eexists.
  split; [apply Integral_Riemann_eval; lia |].
  split; [apply Integral_Trapezoid1_eval; lia |].
  replace (Z.to_nat n) with (S (Z.to_nat (n - 1))) by lia.
  rewrite Sigma_S.
  replace (1 + Z.of_nat (Z.to_nat (n - 1)))%Z with n by lia.
  rewrite abscissa_n by lia. lra.
Qed.

Lemma Integral_Riemann_one : Integral_Riemann (floats f) a b 1 = Ok (f b * (b - a)).
Proof.
  rewrite Integral_Riemann_eval by lia. f_equal.
  change (Z.to_nat 1) with 1%nat. cbn [Sigma Z.of_nat]. change (1 + 0)%Z with 1%Z.
  rewrite abscissa_n by lia. unfold Dx. lra.
Qed.

End Trapezoid.

(** ** Simpson's rule *)

Section Simpson.

Variable f : R -> R.
Variables a b : R.

(** For an even [n >= 4], with [m = n/2], the rule returns
    [(Dx/3) * (f(a) + f(b) + 4*(f x_1 + f x_3 + ... + f x_(n-1))
                           + 2*(f x_2 + f x_4 + ... + f x_(n-2)))]. *)
Lemma Integral_SimpsonRule_sum_f (n : Z) :
  (4 <= n)%Z -> Z.even n = true ->
  Integral_SimpsonRule (floats f) a b n
  = Ok (Dx a b n / 3
        * (f a + f b
           + 4 * sum_f_R0 (fun k => f (a + INR (2 * k + 1) * Dx a b n))
                          (Z.to_nat (n / 2) - 1)
           + 2 * sum_f 1 (Z.to_nat (n / 2) - 1)
                       (fun k => f (a + INR (2 * k) * Dx a b n)))).
Proof.
  intros Hn He. rewrite Integral_SimpsonRule_eval by assumption.
  apply Zeven_bool_iff, Zeven_div2 in He. rewrite Zdiv2_div in He.
  assert (Hm : (2 <= n / 2)%Z) by lia.
  replace ((n - 2) / 2)%Z with (n / 2 - 1)%Z
    by (apply Z.div_unique with (r := 0%Z); lia).
  remember (Z.to_nat (n / 2)) as m eqn:Em.
  replace (Z.to_nat (n / 2 - 1)) with (m - 1)%nat by lia.
  destruct m as [| m]; [lia |].
  replace (S m - 1)%nat with m by lia.
  rewrite <- Sigma_sum_f_R0, <- Sigma_sum_f_1 by lia.
  f_equal.
  rewrite (Sigma_ext (fun k => f (abscissa a b n (1 + 2 * Z.of_nat k)))
                     (fun k => f (a + INR (2 * k + 1) * Dx a b n))).
  2:{ intros k _. unfold abscissa. rewrite INR_IZR_INZ.
      now replace (Z.of_nat (2 * k + 1)) with (1 + 2 * Z.of_nat k)%Z by lia. }
  rewrite (Sigma_ext (fun k => f (abscissa a b n (2 + 2 * Z.of_nat k)))
                     (fun k => f (a + INR (2 * S k) * Dx a b n))).
  2:{ intros k _. unfold abscissa. rewrite INR_IZR_INZ.
      now replace (Z.of_nat (2 * S k)) with (2 + 2 * Z.of_nat k)%Z by lia. }
  lra.
Qed.

(** With two subdivisions the list of even interior points is empty and
    [np.vectorize] refuses it. *)
Lemma Integral_SimpsonRule_two : Integral_SimpsonRule (floats f) a b 2 = Raise ValueError.
Proof.
  unfold Integral_SimpsonRule.
  rewrite float_div_nonzero by lia. reflexivity.
Qed.

Lemma Integral_SimpsonRule_one : Integral_SimpsonRule (floats f) a b 1 = Raise ValueError.
Proof.
  unfold Integral_SimpsonRule.
  rewrite float_div_nonzero by lia. reflexivity.
Qed.

Lemma Integral_SimpsonRule_three :
  Integral_SimpsonRule (floats f) a b 3 = Raise ValueError.
Proof.
  unfold Integral_SimpsonRule.
  rewrite float_div_nonzero by lia. reflexivity.
Qed.

End Simpson.

(** *** Simpson's rule as a sum of panels *)

Section SimpsonPanels.

(** The weights 4/3 on the odd points and 2/3 on the even interior points,
    with 1/3 on the two ends, add up the three-point panels
    [1/3 * (g(2k) + 4*g(2k+1) + g(2k+2))] over the [m+1] pairs of
    subintervals. *)
Lemma Simpson_panels (g : Z -> R) (m : nat) :
  4 / 3 * Sigma (fun k => g (1 + 2 * Z.of_nat k)%Z) (S m)
  + 2 / 3 * Sigma (fun k => g (2 + 2 * Z.of_nat k)%Z) m
  + 1 / 3 * g 0%Z + 1 / 3 * g (2 * Z.of_nat (S m))%Z
  = Sigma (fun k => 1 / 3 * (g (2 * Z.of_nat k)%Z
                             + 4 * g (1 + 2 * Z.of_nat k)%Z
                             + g (2 + 2 * Z.of_nat k)%Z)) (S m).
Proof.
  induction m as [| m IH].
  - cbn [Sigma]. change (2 * Z.of_nat 1)%Z with (2 + 2 * Z.of_nat 0)%Z.
    change (2 * Z.of_nat 0)%Z with 0%Z. lra.
  - rewrite (Sigma_S (fun k => g (1 + 2 * Z.of_nat k)%Z) (S m)).
    rewrite (Sigma_S (fun k => g (2 + 2 * Z.of_nat k)%Z) m).
    rewrite (Sigma_S (fun k => 1 / 3 * _) (S m)), <- IH.
    replace (2 * Z.of_nat (S (S m)))%Z with (2 + 2 * Z.of_nat (S m))%Z by lia.
    replace (2 + 2 * Z.of_nat m)%Z with (2 * Z.of_nat (S m))%Z by lia.
    lra.
Qed.

Lemma Sigma_telescope (G : nat -> R) (m : nat) :
  Sigma (fun k => G (S k) - G k) m = G m - G 0%nat.
Proof.
  induction m as [| m IH]; [simpl; lra |].
  rewrite Sigma_S, IH. lra.
Qed.

Lemma Sigma_scal (c : R) (g : nat -> R) (m : nat) :
  Sigma (fun k => g k * c) m = Sigma g m * c.
Proof.
  induction m as [| m IH]; [simpl; lra |].
  rewrite !Sigma_S, IH. lra.
Qed.

End SimpsonPanels.

(** *** Exactness on polynomials of degree at most 3 *)

Section Exactness.

Variables a b : R.

Lemma IZR_nonzero (n : Z) : n <> 0%Z -> IZR n <> 0.
Proof. intros Hn E. now apply eq_IZR_R0 in E. Qed.

(** For an even [n >= 4] the rule is the sum of its [n/2] panels. *)
Lemma Integral_SimpsonRule_panels (f : R -> R) (n : Z) :
  (4 <= n)%Z -> Z.even n = true ->
  Integral_SimpsonRule (floats f) a b n
  = Ok (Sigma (fun k => 1 / 3 * (f (abscissa a b n (2 * Z.of_nat k))
                                 + 4 * f (abscissa a b n (1 + 2 * Z.of_nat k))
                                 + f (abscissa a b n (2 + 2 * Z.of_nat k))))
              (Z.to_nat (n / 2)) * Dx a b n).
Proof.
  intros Hn He. rewrite Integral_SimpsonRule_eval by assumption.
  apply Zeven_bool_iff, Zeven_div2 in He. rewrite Zdiv2_div in He.
  replace ((n - 2) / 2)%Z with (n / 2 - 1)%Z
    by (apply Z.div_unique with (r := 0%Z); lia).
  remember (Z.to_nat (n / 2)) as m eqn:Em.
  destruct m as [| m]; [lia |].
  replace (Z.to_nat (n / 2 - 1)) with m by lia.
  rewrite <- (Simpson_panels (fun i => f (abscissa a b n i)) m).
  replace (2 * Z.of_nat (S m))%Z with n by lia.
  rewrite abscissa_0, abscissa_n by lia. reflexivity.
Qed.

Variables c0 c1 c2 c3 : R.

Local Abbreviation p := (cubic c0 c1 c2 c3).
Local Abbreviation P := (cubic_primitive c0 c1 c2 c3).

(** One panel integrates a cubic exactly. *)
Lemma cubic_panel (x h : R) :
  1 / 3 * (p x + 4 * p (x + h) + p (x + 2 * h)) * h = P (x + 2 * h) - P x.
Proof. unfold cubic, cubic_primitive. field. Qed.

(** For an even [n >= 4], Simpson's rule returns [P(b) - P(a)] on a
    polynomial of degree at most 3 with antiderivative [P]. *)
Lemma Integral_SimpsonRule_cubic (n : Z) :
  (4 <= n)%Z -> Z.even n = true ->
  Integral_SimpsonRule (floats (cubic c0 c1 c2 c3)) a b n
  = Ok (cubic_primitive c0 c1 c2 c3 b - cubic_primitive c0 c1 c2 c3 a).
Proof.
  intros Hn He. rewrite Integral_SimpsonRule_panels by assumption.
  apply Zeven_bool_iff, Zeven_div2 in He. rewrite Zdiv2_div in He.
  f_equal. rewrite <- Sigma_scal.
  rewrite (Sigma_ext _
             (fun k => P (abscissa a b n (2 * Z.of_nat (S k)))
                       - P (abscissa a b n (2 * Z.of_nat k)))).
  - rewrite (Sigma_telescope (fun k => P (abscissa a b n (2 * Z.of_nat k)))).
    replace (2 * Z.of_nat (Z.to_nat (n / 2)))%Z with n by lia.
    change (2 * Z.of_nat 0)%Z with 0%Z.
    rewrite abscissa_0, abscissa_n by lia. reflexivity.
  - intros k _.
    replace (abscissa a b n (1 + 2 * Z.of_nat k))
      with (abscissa a b n (2 * Z.of_nat k) + Dx a b n)
      by (unfold abscissa; rewrite plus_IZR; ring).
    replace (abscissa a b n (2 + 2 * Z.of_nat k))
      with (abscissa a b n (2 * Z.of_nat k) + 2 * Dx a b n)
      by (unfold abscissa; rewrite plus_IZR; ring).
    replace (abscissa a b n (2 * Z.of_nat (S k)))
      with (abscissa a b n (2 * Z.of_nat k) + 2 * Dx a b n)
      by (unfold abscissa; rewrite Nat2Z.inj_succ, <- Z.add_1_r,
            Z.mul_add_distr_l, plus_IZR; simpl (IZR (2 * 1)); ring).
    apply cubic_panel.
Qed.

(** [cubic_primitive] is an antiderivative of [cubic]. *)
Lemma cubic_primitive_derivative (x : R) :
  derivable_pt_lim (cubic_primitive c0 c1 c2 c3) x (cubic c0 c1 c2 c3 x).
Proof.
  unfold cubic_primitive, cubic.
  pose (q := fun k : nat => fun y : R => y ^ k).
  assert (Hq : forall k, derivable_pt_lim (q k) x (INR k * x ^ pred k))
    by (intros k; apply derivable_pt_lim_pow).
  pose (t1 := mult_real_fct c0 (q 1%nat)).
  pose (t2 := mult_real_fct (c1 / 2) (q 2%nat)).
  pose (t3 := mult_real_fct (c2 / 3) (q 3%nat)).
  pose (t4 := mult_real_fct (c3 / 4) (q 4%nat)).
  assert (E : forall y,
             c0 * y + c1 * y ^ 2 / 2 + c2 * y ^ 3 / 3 + c3 * y ^ 4 / 4
             = (t1 + t2 + t3 + t4)%F y).
  { intros y. unfold t1, t2, t3, t4, q, plus_fct, mult_real_fct. field. }
  apply (derivable_pt_lim_ext ((t1 + t2 + t3 + t4)%F));
    [intros y; symmetry; apply E |].
  replace (c0 + c1 * x + c2 * x ^ 2 + c3 * x ^ 3)
    with (c0 * (INR 1 * x ^ pred 1) + c1 / 2 * (INR 2 * x ^ pred 2)
          + c2 / 3 * (INR 3 * x ^ pred 3) + c3 / 4 * (INR 4 * x ^ pred 4))
    by (simpl; field).
  repeat apply derivable_pt_lim_plus; apply derivable_pt_lim_scal; apply Hq.
Qed.

End Exactness.

(** ** Constant integrands *)

Section Constant.

Variables c a b : R.

Lemma half_decimal : 0.5 = 1 / 2.
Proof. lra. Qed.

Lemma INR_to_nat (n : Z) : (0 <= n)%Z -> INR (Z.to_nat n) = IZR n.
Proof. intros Hn. rewrite INR_IZR_INZ. f_equal. lia. Qed.

Lemma Integral_Riemann_const (n : Z) :
  (1 <= n)%Z -> Integral_Riemann (floats (fun _ => c)) a b n = Ok (c * (b - a)).
Proof.
  intros Hn. rewrite Integral_Riemann_eval by assumption. f_equal.
  rewrite Sigma_const, INR_to_nat by lia. unfold Dx.
  field. apply IZR_nonzero. lia.
Qed.

Lemma Integral_Trapezoid2_const (n : Z) :
  (1 <= n)%Z -> Integral_Trapezoid2 (floats (fun _ => c)) a b n = Ok (c * (b - a)).
Proof.
  intros Hn. rewrite Integral_Trapezoid2_eval by assumption. f_equal.
  rewrite Sigma_const, INR_to_nat, half_decimal by lia. unfold Dx.
  field. apply IZR_nonzero. lia.
Qed.

Lemma Integral_Trapezoid1_const (n : Z) :
  (2 <= n)%Z -> Integral_Trapezoid1 (floats (fun _ => c)) a b n = Ok (c * (b - a)).
Proof.
  intros Hn. rewrite Integral_Trapezoid_agree by assumption.
  apply Integral_Trapezoid2_const. lia.
Qed.

Lemma Integral_SimpsonRule_const (n : Z) :
  (4 <= n)%Z -> Z.even n = true ->
  Integral_SimpsonRule (floats (fun _ => c)) a b n = Ok (c * (b - a)).
Proof.
  intros Hn He. rewrite Integral_SimpsonRule_panels by assumption.
  apply Zeven_bool_iff, Zeven_div2 in He. rewrite Zdiv2_div in He.
  f_equal. rewrite Sigma_const, INR_to_nat by lia.
  replace (IZR (n / 2)) with (IZR n / 2).
  - unfold Dx. field. apply IZR_nonzero. lia.
  - rewrite He at 1. rewrite mult_IZR. field.
Qed.

(** On an odd [n >= 5] Simpson's rule drops the last subinterval: on the
    constant 1 over [0, 1] with [n = 5] it returns 4/5. *)
Lemma Integral_SimpsonRule_const_five :
  Integral_SimpsonRule (floats (fun _ => 1)) 0 1 5 = Ok (4 / 5).
Proof.
  rewrite Integral_SimpsonRule_eval by lia. f_equal.
  change (Z.to_nat (5 / 2)) with 2%nat.
  change (Z.to_nat ((5 - 2) / 2)) with 1%nat.
  cbn [Sigma]. unfold Dx. lra.
Qed.

End Constant.

(** ** Swapping the bounds *)

Section Swap.

Variable f : R -> R.
Variables a b : R.

(** A sum over points counted from [b] with the reversed step is the sum
    over the mirrored indices counted from [a]. *)
Lemma Sigma_swap (n : Z) (ix ix' : nat -> Z) (m : nat) :
  n <> 0%Z ->
  (forall k, (k < m)%nat -> ix' (m - 1 - k)%nat = (n - ix k)%Z) ->
  Sigma (fun k => f (abscissa b a n (ix k))) m
  = Sigma (fun k => f (abscissa a b n (ix' k))) m.
Proof.
  intros Hn Hix.
  rewrite <- (Sigma_rev (fun k => f (abscissa a b n (ix' k)))).
  apply Sigma_ext. intros k Hk.
  rewrite abscissa_swap, Hix by assumption. reflexivity.
Qed.

Lemma Integral_Trapezoid2_swap (n : Z) :
  (1 <= n)%Z ->
  exists v, Integral_Trapezoid2 (floats f) a b n = Ok v
            /\ Integral_Trapezoid2 (floats f) b a n = Ok (- v).
Proof.
  intros Hn. eexists. split; [apply Integral_Trapezoid2_eval; lia |].
  rewrite Integral_Trapezoid2_eval by lia. f_equal.
  rewrite (Sigma_swap n (fun k => (0 + Z.of_nat k)%Z)
                        (fun k => (1 + Z.of_nat k)%Z)) by lia.
  rewrite (Sigma_swap n (fun k => (1 + Z.of_nat k)%Z)
                        (fun k => (0 + Z.of_nat k)%Z)) by lia.
  rewrite Dx_swap. lra.
Qed.

Lemma Integral_Trapezoid1_swap (n : Z) :
  (2 <= n)%Z ->
  exists v, Integral_Trapezoid1 (floats f) a b n = Ok v
            /\ Integral_Trapezoid1 (floats f) b a n = Ok (- v).
Proof.
  intros Hn. eexists. split; [apply Integral_Trapezoid1_eval; lia |].
  rewrite Integral_Trapezoid1_eval by lia. f_equal.
  rewrite (Sigma_swap n (fun k => (1 + Z.of_nat k)%Z)
                        (fun k => (1 + Z.of_nat k)%Z)) by lia.
  rewrite Dx_swap. lra.
Qed.

Lemma Integral_SimpsonRule_swap (n : Z) :
  (4 <= n)%Z -> Z.even n = true ->
  exists v, Integral_SimpsonRule (floats f) a b n = Ok v
            /\ Integral_SimpsonRule (floats f) b a n = Ok (- v).
Proof.
  intros Hn He. eexists. split; [apply Integral_SimpsonRule_eval; lia |].
  rewrite Integral_SimpsonRule_eval by lia. f_equal.
  apply Zeven_bool_iff, Zeven_div2 in He. rewrite Zdiv2_div in He.
  assert (E : ((n - 2) / 2 = n / 2 - 1)%Z)
    by (symmetry; apply Z.div_unique with (r := 0%Z); lia).
  rewrite (Sigma_swap n (fun k => (1 + 2 * Z.of_nat k)%Z)
                        (fun k => (1 + 2 * Z.of_nat k)%Z)) by lia.
  rewrite (Sigma_swap n (fun k => (2 + 2 * Z.of_nat k)%Z)
                        (fun k => (2 + 2 * Z.of_nat k)%Z)) by lia.
  rewrite Dx_swap. lra.
Qed.

(** The right-endpoint sum taken from [b] back to [a] samples the left
    endpoints [x_0 .. x_(n-1)]: it is the negated Riemann sum corrected by
    [Dx * (f(b) - f(a))]. *)
Lemma Integral_Riemann_swap (n : Z) :
  (1 <= n)%Z ->
  exists v, Integral_Riemann (floats f) a b n = Ok v
            /\ Integral_Riemann (floats f) b a n
               = Ok (- (v - Dx a b n * (f b - f a))).
Proof.
  intros Hn. eexists. split; [apply Integral_Riemann_eval; lia |].
  rewrite Integral_Riemann_eval by lia. f_equal.
  rewrite (Sigma_swap n (fun k => (1 + Z.of_nat k)%Z)
                        (fun k => (0 + Z.of_nat k)%Z)) by lia.
  rewrite Dx_swap.
  replace (Z.to_nat n) with (S (Z.to_nat (n - 1))) by lia.
  rewrite Sigma_shift, Sigma_S.
  rewrite (Sigma_ext (fun k => f (abscissa a b n (0 + Z.of_nat (S k))))
                     (fun k => f (abscissa a b n (1 + Z.of_nat k))))
    by (intros; do 2 f_equal; lia).
  replace (1 + Z.of_nat (Z.to_nat (n - 1)))%Z with n by lia.
  change (0 + Z.of_nat 0)%Z with 0%Z.
  rewrite abscissa_0, abscissa_n by lia. lra.
Qed.

(** On the identity over [0, 1] with one subdivision the Riemann sum is 1,
    and with the bounds swapped it is 0. *)
Lemma Integral_Riemann_id_swapped :
  Integral_Riemann (floats (fun x => x)) 0 1 1 = Ok 1
  /\ Integral_Riemann (floats (fun x => x)) 1 0 1 = Ok 0.
Proof.
  split; rewrite Integral_Riemann_one; f_equal; lra.
Qed.

End Swap.

(** ** Subdivision counts outside the domain *)

Section InvalidSubdivision.

Variable f : R -> R.
Variables a b : R.

Ltac raise_nonpositive n Hn :=
  unfold exn_of_nonpositive;
  destruct (Z.eqb_spec n 0) as [-> | Hz];
  [rewrite float_div_zero; reflexivity
  | rewrite float_div_nonzero by assumption; cbn [bind];
    rewrite range_empty by lia; reflexivity].

Lemma Integral_Riemann_nonpositive (n : Z) :
  (n <= 0)%Z -> Integral_Riemann (floats f) a b n = Raise (exn_of_nonpositive n).
Proof. intros Hn. unfold Integral_Riemann. raise_nonpositive n Hn. Qed.

Lemma Integral_Trapezoid1_nonpositive (n : Z) :
  (n <= 0)%Z -> Integral_Trapezoid1 (floats f) a b n = Raise (exn_of_nonpositive n).
Proof. intros Hn. unfold Integral_Trapezoid1. raise_nonpositive n Hn. Qed.

Lemma Integral_Trapezoid2_nonpositive (n : Z) :
  (n <= 0)%Z -> Integral_Trapezoid2 (floats f) a b n = Raise (exn_of_nonpositive n).
Proof. intros Hn. unfold Integral_Trapezoid2. raise_nonpositive n Hn. Qed.

Lemma Integral_SimpsonRule_nonpositive (n : Z) :
  (n <= 0)%Z -> Integral_SimpsonRule (floats f) a b n = Raise (exn_of_nonpositive n).
Proof. intros Hn. unfold Integral_SimpsonRule. raise_nonpositive n Hn. Qed.

Lemma Integral_SimpsonRule_returns (n : Z) :
  (4 <= n)%Z -> returns (Integral_SimpsonRule (floats f) a b n).
Proof.
  intros Hn. eexists. apply Integral_SimpsonRule_eval. assumption.
Qed.

End InvalidSubdivision.

(** ** The numeric differentiator *)

Section Differentiator.

Lemma range_0_3 : range 0 3 1 = [0; 1; 2]%Z.
Proof. reflexivity. Qed.

(** [scipy.misc.derivative] with three points is the centered finite
    difference (the middle point has weight 0). *)
Lemma derivative_centered (F : R -> R) (x h : R) :
  derivative F x h = centered_difference F x h.
Proof.
  unfold derivative, centered_difference.
  rewrite range_0_3.
  cbn [fold_left map].
  change (Z.to_nat 0) with 0%nat. change (Z.to_nat 1) with 1%nat.
  change (Z.to_nat 2) with 2%nat. cbn [nth].
  change (0 - 1)%Z with (-1)%Z. change (1 - 1)%Z with 0%Z.
  change (2 - 1)%Z with 1%Z.
  replace (x + -1 * h) with (x - h) by ring.
  replace (x + 1 * h) with (x + h) by ring.
  unfold Rdiv. rewrite Rinv_mult. ring.
Qed.

Lemma dF_dx_centered (x : R) :
  dF_dx x = (sin (x + 1 / 10000) - sin (x - 1 / 10000)) / (2 * (1 / 10000)).
Proof. unfold dF_dx. rewrite derivative_centered. reflexivity. Qed.

(** On a non-empty sequence the vectorized differentiator returns the
    scalar estimates, one per input and in the same order. *)
Lemma Vect_dF_dx_nonempty (xs : list R) :
  xs <> [] -> Vect_dF_dx xs = Ok (map dF_dx xs).
Proof. apply np_vectorize_nonempty. Qed.

Lemma Vect_dF_dx_empty : Vect_dF_dx [] = Raise ValueError.
Proof. reflexivity. Qed.

End Differentiator.

(** ** Integrands of any output type *)

Section AnyIntegrand.

Variable f : R -> pynum.
Variables a b : R.

Lemma sample_self (x : R) : sample f x x = to_float (f x).
Proof. apply cast_as_self. Qed.

Lemma Integral_Trapezoid1_one_any :
  Integral_Trapezoid1 f a b 1 = Raise ValueError.
Proof.
  unfold Integral_Trapezoid1.
  rewrite float_div_nonzero by lia. reflexivity.
Qed.

Lemma Integral_Trapezoid2_one_any :
  Integral_Trapezoid2 f a b 1
  = Ok (0.5 * (to_float (f a) + to_float (f b)) * (b - a)).
Proof.
  rewrite Integral_Trapezoid2_eval_any by lia. f_equal.
  change (Z.to_nat 1) with 1%nat. cbn [Sigma Z.of_nat].
  change (0 + 0)%Z with 0%Z. change (1 + 0)%Z with 1%Z.
  rewrite abscissa_0, abscissa_n, !sample_self by lia.
  unfold Dx. lra.
Qed.

Lemma Integral_Riemann_one_any :
  Integral_Riemann f a b 1 = Ok (to_float (f b) * (b - a)).
Proof.
  rewrite Integral_Riemann_eval_any by lia. f_equal.
  change (Z.to_nat 1) with 1%nat. cbn [Sigma Z.of_nat].
  change (1 + 0)%Z with 1%Z.
  rewrite abscissa_n, sample_self by lia. unfold Dx. lra.
Qed.

Lemma Integral_SimpsonRule_two_any :
  Integral_SimpsonRule f a b 2 = Raise ValueError.
Proof.
  unfold Integral_SimpsonRule.
  rewrite float_div_nonzero by lia. reflexivity.
Qed.

Ltac raise_nonpositive_any n Hn :=
  unfold exn_of_nonpositive;
  destruct (Z.eqb_spec n 0) as [-> | Hz];
  [rewrite float_div_zero; reflexivity
  | rewrite float_div_nonzero by assumption; cbn [bind];
    rewrite range_empty by lia; reflexivity].

Lemma Integral_Riemann_nonpositive_any (n : Z) :
  (n <= 0)%Z -> Integral_Riemann f a b n = Raise (exn_of_nonpositive n).
Proof. intros Hn. unfold Integral_Riemann. raise_nonpositive_any n Hn. Qed.

Lemma Integral_Trapezoid1_nonpositive_any (n : Z) :
  (n <= 0)%Z -> Integral_Trapezoid1 f a b n = Raise (exn_of_nonpositive n).
Proof. intros Hn. unfold Integral_Trapezoid1. raise_nonpositive_any n Hn. Qed.

Lemma Integral_Trapezoid2_nonpositive_any (n : Z) :
  (n <= 0)%Z -> Integral_Trapezoid2 f a b n = Raise (exn_of_nonpositive n).
Proof. intros Hn. unfold Integral_Trapezoid2. raise_nonpositive_any n Hn. Qed.

Lemma Integral_SimpsonRule_nonpositive_any (n : Z) :
  (n <= 0)%Z -> Integral_SimpsonRule f a b n = Raise (exn_of_nonpositive n).
Proof. intros Hn. unfold Integral_SimpsonRule. raise_nonpositive_any n Hn. Qed.

Lemma Integral_SimpsonRule_returns_any (n : Z) :
  (4 <= n)%Z -> returns (Integral_SimpsonRule f a b n).
Proof.
  intros Hn. eexists. apply Integral_SimpsonRule_eval_any. assumption.
Qed.

End AnyIntegrand.

(** ** The rules at their smallest subdivision counts *)

(** C2.  With [n = 1] the first trapezoid formulation builds an empty list
    of interior points, [np.vectorize] raises [ValueError] on it, and no
    value is returned: in particular not the area
    [0.5*(f(a)+f(b))*(b-a)] of the single trapezoid, which the second
    formulation does return. *)
Theorem Integral_Trapezoid1_one_subdivision (f : R -> pynum) (a b : R) :
  Integral_Trapezoid1 f a b 1 = Raise ValueError
  /\ Integral_Trapezoid1 f a b 1
     <> Ok (0.5 * (to_float (f a) + to_float (f b)) * (b - a))
  /\ Integral_Trapezoid2 f a b 1
     = Ok (0.5 * (to_float (f a) + to_float (f b)) * (b - a)).
Proof.
  rewrite Integral_Trapezoid1_one_any, Integral_Trapezoid2_one_any.
  repeat split. discriminate.
Qed.

(** C3.  With [n = 2] Simpson's rule builds the odd point [x_1] and an
    empty list of even interior points, [np.vectorize] raises [ValueError]
    on the latter, and no value is returned: in particular not
    [(Dx/3) * (f(a) + f(b) + 4*f(x_1))]. *)
Theorem Integral_SimpsonRule_two_subdivisions (f : R -> pynum) (a b : R) :
  Integral_SimpsonRule f a b 2 = Raise ValueError
  /\ Integral_SimpsonRule f a b 2
     <> Ok (Dx a b 2 / 3
            * (to_float (f a) + to_float (f b)
               + 4 * to_float (f (abscissa a b 2 1)))).
Proof.
  rewrite Integral_SimpsonRule_two_any. split; [reflexivity | discriminate].
Qed.

(** C4.  With [n = 1] the two trapezoid formulations disagree: the first
    raises [ValueError], the second returns a value. *)
Theorem Integral_Trapezoid_disagree_one (f : R -> pynum) (a b : R) :
  Integral_Trapezoid1 f a b 1 <> Integral_Trapezoid2 f a b 1.
Proof.
  rewrite Integral_Trapezoid1_one_any, Integral_Trapezoid2_one_any.
  discriminate.
Qed.

(** C6.  With [n = 2] Simpson's rule raises [ValueError] on every
    polynomial of degree at most 3 instead of returning its integral
    [P(b) - P(a)]. *)
Theorem Integral_SimpsonRule_cubic_two (c0 c1 c2 c3 a b : R) :
  Integral_SimpsonRule (floats (cubic c0 c1 c2 c3)) a b 2 = Raise ValueError
  /\ Integral_SimpsonRule (floats (cubic c0 c1 c2 c3)) a b 2
     <> Ok (cubic_primitive c0 c1 c2 c3 b - cubic_primitive c0 c1 c2 c3 a).
Proof.
  rewrite Integral_SimpsonRule_two. split; [reflexivity | discriminate].
Qed.

(** C10.  With [n = 1] the Riemann sum returns [f(b)*(b-a)] but the first
    trapezoid formulation raises [ValueError], so there is no pair of
    results whose difference could be the boundary correction. *)
Theorem Integral_Riemann_Trapezoid1_one (f : R -> pynum) (a b : R) :
  Integral_Riemann f a b 1 = Ok (to_float (f b) * (b - a))
  /\ ~ (exists r t,
          Integral_Riemann f a b 1 = Ok r
          /\ Integral_Trapezoid1 f a b 1 = Ok t
          /\ r - t = Dx a b 1 / 2 * (to_float (f b) - to_float (f a))).
Proof.
  split; [apply Integral_Riemann_one_any |].
  intros (r & t & _ & Ht & _).
  rewrite Integral_Trapezoid1_one_any in Ht. discriminate.
Qed.

(** ** Constant integrands, all rules *)

Lemma Integral_SimpsonRule_const_odd_counterexample :
  Integral_SimpsonRule (floats (fun _ => 1)) 0 1 5 <> Ok (1 * (1 - 0)).
Proof.
  rewrite Integral_SimpsonRule_const_five.
  intros E. injection E as E. lra.
Qed.

(** C5, amended.  On the constant function [c] the Riemann sum and the
    second trapezoid formulation return [c*(b-a)] for every [n >= 1], the
    first trapezoid formulation for every [n >= 2], and Simpson's rule for
    every even [n >= 4]. *)
Theorem constant_exactness (c a b : R) (n1 n2 n4 : Z) :
  (1 <= n1)%Z -> (2 <= n2)%Z -> (4 <= n4)%Z -> Z.even n4 = true ->
  Integral_Riemann (floats (fun _ => c)) a b n1 = Ok (c * (b - a))
  /\ Integral_Trapezoid2 (floats (fun _ => c)) a b n1 = Ok (c * (b - a))
  /\ Integral_Trapezoid1 (floats (fun _ => c)) a b n2 = Ok (c * (b - a))
  /\ Integral_SimpsonRule (floats (fun _ => c)) a b n4 = Ok (c * (b - a)).
Proof.
  intros H1 H2 H4 He. repeat split.
  - now apply Integral_Riemann_const.
  - now apply Integral_Trapezoid2_const.
  - now apply Integral_Trapezoid1_const.
  - now apply Integral_SimpsonRule_const.
Qed.

Lemma constant_exactness_witness :
  ((1 <= 1)%Z /\ (2 <= 2)%Z /\ (4 <= 4)%Z /\ Z.even 4 = true)
  /\ Integral_Riemann (floats (fun _ => 3)) 0 2 1 = Ok (3 * (2 - 0))
  /\ Integral_Trapezoid2 (floats (fun _ => 3)) 0 2 1 = Ok (3 * (2 - 0))
  /\ Integral_Trapezoid1 (floats (fun _ => 3)) 0 2 2 = Ok (3 * (2 - 0))
  /\ Integral_SimpsonRule (floats (fun _ => 3)) 0 2 4 = Ok (3 * (2 - 0)).
Proof.
  split; [repeat split; (lia || reflexivity) |].
  apply (constant_exactness 3 0 2 1 2 4); (lia || reflexivity).
Defined.

(** ** Non-positive and odd subdivision counts *)

Lemma Integral_Riemann_zero_counterexample :
  Integral_Riemann (floats (fun x => x)) 0 1 0 = Raise ZeroDivisionError
  /\ ~ returns (Integral_Riemann (floats (fun x => x)) 0 1 0).
Proof.
  assert (E : Integral_Riemann (floats (fun x => x)) 0 1 0 = Raise ZeroDivisionError)
    by (apply (Integral_Riemann_nonpositive (fun x => x) 0 1 0); lia).
  split; [exact E |].
  intros [v Hv]. rewrite E in Hv. discriminate.
Qed.

(** C7, amended.  On a non-positive [n] each of the four rules raises an
    exception and returns no value: [ZeroDivisionError] for [n = 0] (the
    division by [float(n)]) and [ValueError] for [n < 0] (the empty list of
    abscissas handed to [np.vectorize]).  On an odd [n' >= 5] Simpson's
    rule raises nothing and returns a value. *)
Theorem invalid_subdivisions (f : R -> pynum) (a b : R) (n n' : Z) :
  (n <= 0)%Z -> (5 <= n')%Z -> Z.odd n' = true ->
  Integral_Riemann f a b n
  = Raise (if (n =? 0)%Z then ZeroDivisionError else ValueError)
  /\ Integral_Trapezoid1 f a b n
     = Raise (if (n =? 0)%Z then ZeroDivisionError else ValueError)
  /\ Integral_Trapezoid2 f a b n
     = Raise (if (n =? 0)%Z then ZeroDivisionError else ValueError)
  /\ Integral_SimpsonRule f a b n
     = Raise (if (n =? 0)%Z then ZeroDivisionError else ValueError)
  /\ returns (Integral_SimpsonRule f a b n').
Proof.
  intros Hn Hn' _. repeat split.
  - now apply Integral_Riemann_nonpositive_any.
  - now apply Integral_Trapezoid1_nonpositive_any.
  - now apply Integral_Trapezoid2_nonpositive_any.
  - now apply Integral_SimpsonRule_nonpositive_any.
  - apply Integral_SimpsonRule_returns_any. lia.
Qed.

Lemma invalid_subdivisions_witness :
  ((-3 <= 0)%Z /\ (5 <= 7)%Z /\ Z.odd 7 = true)
  /\ Integral_Riemann (floats (fun x => x)) 0 1 (-3) = Raise ValueError
  /\ Integral_Trapezoid1 (floats (fun x => x)) 0 1 (-3) = Raise ValueError
  /\ Integral_Trapezoid2 (floats (fun x => x)) 0 1 (-3) = Raise ValueError
  /\ Integral_SimpsonRule (floats (fun x => x)) 0 1 (-3) = Raise ValueError
  /\ returns (Integral_SimpsonRule (floats (fun x => x)) 0 1 7).
Proof.
  split; [repeat split; (lia || reflexivity) |].
  apply (invalid_subdivisions (floats (fun x => x)) 0 1 (-3) 7);
    (lia || reflexivity).
Defined.

(** ** Swapped bounds, all rules *)

Lemma Integral_Riemann_swap_counterexample :
  ~ (exists v, Integral_Riemann (floats (fun x => x)) 0 1 1 = Ok v
               /\ Integral_Riemann (floats (fun x => x)) 1 0 1 = Ok (- v)).
Proof.
  destruct Integral_Riemann_id_swapped as [E1 E2].
  intros (v & H1 & H2). rewrite E1 in H1. rewrite E2 in H2.
  injection H1 as H1. injection H2 as H2. lra.
Qed.

(** C8, amended.  With the bounds swapped, the second trapezoid
    formulation (for [n >= 1]), the first one (for [n >= 2]) and Simpson's
    rule (for an even [n >= 4]) return exactly the negation of their
    result.  The Riemann sum (for [n >= 1]) does not: swapped, it samples
    the left endpoints and returns the negation of its result corrected by
    [Dx * (f(b) - f(a))].
    The integrand returns a float at every point. *)
Theorem swapped_bounds (f : R -> R) (a b : R) (n1 n2 n4 : Z) :
  (1 <= n1)%Z -> (2 <= n2)%Z -> (4 <= n4)%Z -> Z.even n4 = true ->
  (exists v, Integral_Trapezoid2 (floats f) a b n1 = Ok v
             /\ Integral_Trapezoid2 (floats f) b a n1 = Ok (- v))
  /\ (exists v, Integral_Trapezoid1 (floats f) a b n2 = Ok v
                /\ Integral_Trapezoid1 (floats f) b a n2 = Ok (- v))
  /\ (exists v, Integral_SimpsonRule (floats f) a b n4 = Ok v
                /\ Integral_SimpsonRule (floats f) b a n4 = Ok (- v))
  /\ (exists v, Integral_Riemann (floats f) a b n1 = Ok v
                /\ Integral_Riemann (floats f) b a n1
                   = Ok (- (v - (b - a) / IZR n1 * (f b - f a)))).
Proof.
  intros H1 H2 H4 He. repeat apply conj.
  - now apply Integral_Trapezoid2_swap.
  - now apply Integral_Trapezoid1_swap.
  - now apply Integral_SimpsonRule_swap.
  - now apply Integral_Riemann_swap.
Qed.

Lemma swapped_bounds_witness :
  ((1 <= 1)%Z /\ (2 <= 2)%Z /\ (4 <= 4)%Z /\ Z.even 4 = true)
  /\ (exists v, Integral_Trapezoid2 (floats (fun x => x * x)) 0 1 1 = Ok v
                /\ Integral_Trapezoid2 (floats (fun x => x * x)) 1 0 1 = Ok (- v)).
Proof.
  split; [repeat split; (lia || reflexivity) |].
  apply (swapped_bounds (fun x => x * x) 0 1 1 2 4); (lia || reflexivity).
Defined.

(** ** The numeric differentiator, scalar and elementwise *)

Lemma Vect_dF_dx_empty_counterexample :
  ~ (exists ys, Vect_dF_dx [] = Ok ys /\ length ys = length (@nil R)).
Proof.
  intros (ys & H & _). rewrite Vect_dF_dx_empty in H. discriminate.
Qed.

(** C9, amended.  [scipy.misc.derivative] with step [h] returns the
    centered finite difference [(F(x+h) - F(x-h)) / (2h)], and [dF_dx] is
    that estimate for the sine with [h = 1e-4].  The elementwise form
    applied to a non-empty sequence returns a sequence of the same length
    whose [i]-th element is the scalar estimate at the [i]-th input. *)
Theorem numeric_differentiator (F : R -> R) (x h : R) (xs : list R) :
  xs <> [] ->
  derivative F x h = (F (x + h) - F (x - h)) / (2 * h)
  /\ dF_dx x = derivative F_sin x (1 / 10000)
  /\ exists ys,
       Vect_dF_dx xs = Ok ys
       /\ length ys = length xs
       /\ forall i, (i < length xs)%nat -> nth i ys 0 = dF_dx (nth i xs 0).
Proof.
  intros Hxs. split; [apply derivative_centered |].
  split; [reflexivity |].
  exists (map dF_dx xs). split; [now apply Vect_dF_dx_nonempty |].
  split; [apply length_map |].
  intros i Hi. rewrite (nth_indep _ 0 (dF_dx 0)) by now rewrite length_map.
  apply map_nth.
Qed.

Lemma numeric_differentiator_witness :
  [0; 1] <> []
  /\ derivative (fun y => y * y) 3 (1 / 10000)
     = ((3 + 1 / 10000) * (3 + 1 / 10000) - (3 - 1 / 10000) * (3 - 1 / 10000))
       / (2 * (1 / 10000)).
Proof.
  split; [discriminate |].
  apply (numeric_differentiator (fun y => y * y) 3 (1 / 10000) [0; 1]).
  discriminate.
Defined.

(** ** The rules on small inputs *)

Ltac eval_indices :=
  repeat match goal with
         | |- context [IZR ?z] =>
             let z' := eval vm_compute in z in progress change z with z'
         end.

Example Integral_Riemann_id_2 : Integral_Riemann (floats (fun x => x)) 0 1 2 = Ok (3 / 4).
Proof.
  rewrite Integral_Riemann_eval by lia. f_equal.
  change (Z.to_nat 2) with 2%nat. cbn [Sigma].
  unfold abscissa, Dx. eval_indices. lra.
Qed.

Example Integral_Trapezoid1_id_2 :
  Integral_Trapezoid1 (floats (fun x => x)) 0 1 2 = Ok (1 / 2).
Proof.
  rewrite Integral_Trapezoid1_eval by lia. f_equal.
  change (Z.to_nat (2 - 1)) with 1%nat. cbn [Sigma].
  unfold abscissa, Dx. eval_indices. lra.
Qed.

Example Integral_Trapezoid2_id_2 :
  Integral_Trapezoid2 (floats (fun x => x)) 0 1 2 = Ok (1 / 2).
Proof.
  rewrite Integral_Trapezoid2_eval by lia. f_equal.
  change (Z.to_nat 2) with 2%nat. cbn [Sigma].
  unfold abscissa, Dx. eval_indices. lra.
Qed.

Example Integral_SimpsonRule_cube_4 :
  Integral_SimpsonRule (floats (fun x => x ^ 3)) 0 1 4 = Ok (1 / 4).
Proof.
  rewrite Integral_SimpsonRule_eval by lia. f_equal.
  change (Z.to_nat (4 / 2)) with 2%nat.
  change (Z.to_nat ((4 - 2) / 2)) with 1%nat. cbn [Sigma].
  unfold abscissa, Dx. eval_indices. lra.
Qed.

Example dF_dx_0 : dF_dx 0 = 10000 * sin (1 / 10000).
Proof.
  rewrite dF_dx_centered.
  replace (0 - 1 / 10000) with (- (1 / 10000)) by lra.
  replace (0 + 1 / 10000) with (1 / 10000) by lra.
  rewrite sin_neg. field.
Qed.

(** ** The Riemann sum and the output type of the integrand *)

Section RiemannAny.

Variable f : R -> pynum.
Variables a b : R.




End RiemannAny.



Section Clip.

Lemma Rtrunc_small (x : R) : 0 <= x < 1 -> Rtrunc x = 0%Z.
Proof.
  intros Hx. unfold Rtrunc.
  destruct (Rle_dec 0 x) as [_ | N]; [| lra].
  symmetry. apply Int_part_spec. simpl. lra.
Qed.

Lemma clip_low (x : R) : x <= 1 / 2 -> clip x = PyInt 0.
Proof.
  intros Hx. unfold clip.
  destruct (Rle_dec (x - 1 / 2) 0) as [_ | N]; [reflexivity | lra].
Qed.

Lemma clip_high (x : R) : 1 / 2 < x -> clip x = PyFloat (x - 1 / 2).
Proof.
  intros Hx. unfold clip.
  destruct (Rle_dec (x - 1 / 2) 0) as [H | _]; [lra | reflexivity].
Qed.

(** When the first sample is the [int] 0, every sample in [0, 1] is cast
    to the integer 0. *)
Lemma clip_sample (x0 x : R) :
  x0 <= 1 / 2 -> 0 <= x <= 1 -> sample clip x0 x = 0.
Proof.
  intros H0 Hx. unfold sample. rewrite (clip_low x0) by assumption.
  cbn [cast_as].
  destruct (Rle_dec x (1 / 2)) as [Hl | Hh].
  - now rewrite clip_low.
  - rewrite clip_high by lra. cbn [to_int]. rewrite Rtrunc_small by lra.
    reflexivity.
Qed.


Lemma clip_sample_float (x0 x : R) :
  1 / 2 < x0 -> sample clip x0 x = to_float (clip x).
Proof.
  intros H0. unfold sample. rewrite (clip_high x0) by assumption.
  reflexivity.
Qed.

(** With the [int] 0 as first sample the trapezoid value of [clip] over
    [0, 1] is 0; from 1 back to 0 the first samples are floats and the
    value is -1/8, not the negation. *)
Lemma Integral_Trapezoid2_clip_swapped :
  Integral_Trapezoid2 clip 0 1 4 = Ok 0
  /\ Integral_Trapezoid2 clip 1 0 4 = Ok (- (1 / 8)).
Proof.
  split; rewrite Integral_Trapezoid2_eval_any by lia; f_equal;
    change (Z.to_nat 4) with 4%nat; cbn [Sigma];
    unfold abscissa, Dx; eval_indices.
  - rewrite !clip_sample by lra. lra.
  - rewrite !clip_sample_float by lra.
    rewrite (clip_high (1 + 0 * ((0 - 1) / 4))) by lra.
    rewrite (clip_high (1 + 1 * ((0 - 1) / 4))) by lra.
    rewrite (clip_low (1 + 2 * ((0 - 1) / 4))) by lra.
    rewrite (clip_low (1 + 3 * ((0 - 1) / 4))) by lra.
    rewrite (clip_low (1 + 4 * ((0 - 1) / 4))) by lra.
    cbn [to_float]. lra.
Qed.

End Clip.


(** * Further properties of the rules *)

(** ** More on [Sigma] and on the partition *)

Section MoreSigma.

Lemma Sigma_lin (al be : R) (g g' : nat -> R) (m : nat) :
  Sigma (fun k => al * g k + be * g' k) m = al * Sigma g m + be * Sigma g' m.
Proof.
  induction m as [| m IH]; [simpl; ring |].
  rewrite !Sigma_S, IH. ring.
Qed.

Lemma Sigma_le (g g' : nat -> R) (m : nat) :
  (forall k, (k < m)%nat -> g k <= g' k) -> Sigma g m <= Sigma g' m.
Proof.
  induction m as [| m IH]; intros H; [simpl; lra |].
  rewrite !Sigma_S.
  apply Rplus_le_compat; [apply IH; intros; apply H; lia | apply H; lia].
Qed.

Lemma Sigma_app (g : nat -> R) (m m' : nat) :
  Sigma g (m + m') = Sigma g m + Sigma (fun k => g (m + k)%nat) m'.
Proof.
  induction m' as [| m' IH].
  - rewrite Nat.add_0_r. simpl. lra.
  - rewrite Nat.add_succ_r, !Sigma_S, IH. lra.
Qed.

(** A sum over [2*m] consecutive indices splits into its even-placed and
    its odd-placed terms. *)
Lemma Sigma_even_odd (g : nat -> R) (m : nat) :
  Sigma g (2 * m)
  = Sigma (fun k => g (2 * k)%nat) m + Sigma (fun k => g (2 * k + 1)%nat) m.
Proof.
  induction m as [| m IH]; [simpl; lra |].
  replace (2 * S m)%nat with (S (S (2 * m))) by lia.
  rewrite !Sigma_S, IH.
  replace (S (2 * m)) with (2 * m + 1)%nat by lia. lra.
Qed.

End MoreSigma.

Section PartitionOrder.

Variables a b : R.

Lemma Dx_nonneg (n : Z) : a <= b -> (1 <= n)%Z -> 0 <= Dx a b n.
Proof.
  intros Hab Hn. unfold Dx.
  apply Rmult_le_pos; [lra |].
  apply Rlt_le, Rinv_0_lt_compat, IZR_lt. lia.
Qed.

Lemma abscissa_succ (n i : Z) :
  abscissa a b n (i + 1) = abscissa a b n i + Dx a b n.
Proof. unfold abscissa. rewrite plus_IZR. ring. Qed.

Lemma abscissa_in_interval (n i : Z) :
  a <= b -> (0 <= i <= n)%Z -> (1 <= n)%Z ->
  a <= abscissa a b n i <= b.
Proof.
  intros Hab Hi Hn.
  pose proof (Dx_nonneg n Hab Hn) as Hd.
  assert (H0 : 0 <= IZR i) by (apply IZR_le; lia).
  assert (H1 : 0 <= IZR (n - i)) by (apply IZR_le; lia).
  split.
  - unfold abscissa. nra.
  - rewrite <- (abscissa_n a b n) at 2 by lia.
    unfold abscissa. rewrite minus_IZR in H1. nra.
Qed.

End PartitionOrder.

(** ** The trapezoid formulations on their working range *)

(** X1.  For [n >= 2], [Integral_Trapezoid1 (floats f) a b n] returns
    [Dx * (0.5*f(a) + 0.5*f(b) + f x_1 + ... + f x_(n-1))] with
    [Dx = (b-a)/n] and [x_i = a + i*Dx].
    The integrand returns a float at every point. *)
Theorem Trapezoid1_rule (f : R -> R) (a b : R) (n : Z) :
  (2 <= n)%Z ->
  Integral_Trapezoid1 (floats f) a b n
  = Ok ((b - a) / IZR n
        * (0.5 * f a + 0.5 * f b
           + sum_f 1 (Z.to_nat (n - 1))
               (fun i => f (a + INR i * ((b - a) / IZR n))))).
Proof. intros Hn. exact (Integral_Trapezoid1_sum_f f a b n Hn). Qed.

Lemma Trapezoid1_rule_witness :
  (2 <= 3)%Z
  /\ Integral_Trapezoid1 (floats (fun x => x * x)) 0 1 3
     = Ok ((1 - 0) / IZR 3
           * (0.5 * (0 * 0) + 0.5 * (1 * 1)
              + sum_f 1 (Z.to_nat (3 - 1))
                  (fun i => (0 + INR i * ((1 - 0) / IZR 3))
                            * (0 + INR i * ((1 - 0) / IZR 3))))).
Proof.
  split; [lia |].
  apply (Trapezoid1_rule (fun x => x * x) 0 1 3). lia.
Defined.

(** X2.  For [n >= 1], [Integral_Trapezoid2 (floats f) a b n] returns
    [Dx * (0.5*f(a) + 0.5*f(b) + f x_1 + ... + f x_(n-1))]: the sums over
    the left-shifted and the right-shifted points count every interior
    point twice and each end once.  With [n = 1] the interior sum is empty
    and the value is [0.5*(f(a)+f(b))*(b-a)].
    The integrand returns a float at every point. *)
Theorem Trapezoid2_rule (f : R -> R) (a b : R) (n : Z) :
  (1 <= n)%Z ->
  Integral_Trapezoid2 (floats f) a b n
  = Ok ((b - a) / IZR n
        * (0.5 * f a + 0.5 * f b
           + Sigma (fun k => f (a + INR (S k) * ((b - a) / IZR n)))
                   (Z.to_nat (n - 1)))).
Proof.
  intros Hn. rewrite Integral_Trapezoid2_eval by assumption. f_equal.
  replace (Z.to_nat n) with (S (Z.to_nat (n - 1))) by lia.
  rewrite (Sigma_left_right (fun i => f (abscissa a b n i))).
  replace (Z.of_nat (S (Z.to_nat (n - 1)))) with n by lia.
  rewrite abscissa_0, abscissa_n by lia.
  rewrite (Sigma_ext (fun k => f (abscissa a b n (1 + Z.of_nat k)))
                     (fun k => f (a + INR (S k) * ((b - a) / IZR n))))
    by (intros k _; unfold abscissa; now rewrite IZR_succ_of_nat).
  unfold Dx. lra.
Qed.

Lemma Trapezoid2_rule_witness :
  (1 <= 1)%Z
  /\ Integral_Trapezoid2 (floats (fun x => x * x)) 0 1 1
     = Ok ((1 - 0) / IZR 1
           * (0.5 * (0 * 0) + 0.5 * (1 * 1)
              + Sigma (fun k => (0 + INR (S k) * ((1 - 0) / IZR 1))
                                * (0 + INR (S k) * ((1 - 0) / IZR 1)))
                      (Z.to_nat (1 - 1)))).
Proof.
  split; [lia |].
  apply (Trapezoid2_rule (fun x => x * x) 0 1 1). lia.
Defined.

(** X3.  For [n >= 2] the two trapezoid formulations return the same
    value.
    The integrand returns a float at every point. *)
Theorem Trapezoid_formulations_agree (f : R -> R) (a b : R) (n : Z) :
  (2 <= n)%Z ->
  exists v, Integral_Trapezoid1 (floats f) a b n = Ok v
            /\ Integral_Trapezoid2 (floats f) a b n = Ok v.
Proof.
  intros Hn. rewrite Integral_Trapezoid_agree by assumption.
  eexists. split; apply Integral_Trapezoid2_eval; lia.
Qed.

Lemma Trapezoid_formulations_agree_witness :
  (2 <= 2)%Z
  /\ exists v, Integral_Trapezoid1 (floats (fun x => x)) 0 1 2 = Ok v
               /\ Integral_Trapezoid2 (floats (fun x => x)) 0 1 2 = Ok v.
Proof.
  split; [lia |].
  apply (Trapezoid_formulations_agree (fun x => x) 0 1 2). lia.
Defined.

(** X6.  For [n >= 1] the Riemann sum exceeds the value of the second
    trapezoid formulation by the boundary correction
    [(Dx/2) * (f(b) - f(a))]; for [n >= 2] the same holds against the
    first formulation.
    The integrand returns a float at every point. *)
Theorem Riemann_minus_Trapezoid (f : R -> R) (a b : R) (n1 n2 : Z) :
  (1 <= n1)%Z -> (2 <= n2)%Z ->
  (exists r t, Integral_Riemann (floats f) a b n1 = Ok r
               /\ Integral_Trapezoid2 (floats f) a b n1 = Ok t
               /\ r - t = (b - a) / IZR n1 / 2 * (f b - f a))
  /\ (exists r t, Integral_Riemann (floats f) a b n2 = Ok r
                  /\ Integral_Trapezoid1 (floats f) a b n2 = Ok t
                  /\ r - t = (b - a) / IZR n2 / 2 * (f b - f a)).
Proof.
  intros H1 H2. split; [| now apply Integral_Riemann_minus_Trapezoid1].
  eexists. eexists.
  split; [apply Integral_Riemann_eval; lia |].
  split; [apply Integral_Trapezoid2_eval; lia |].
  replace (Z.to_nat n1) with (S (Z.to_nat (n1 - 1))) by lia.
  rewrite (Sigma_left_right (fun i => f (abscissa a b n1 i))).
  rewrite Sigma_S.
  replace (1 + Z.of_nat (Z.to_nat (n1 - 1)))%Z with n1 by lia.
  replace (Z.of_nat (S (Z.to_nat (n1 - 1)))) with n1 by lia.
  rewrite abscissa_0, abscissa_n by lia. unfold Dx. lra.
Qed.

Lemma Riemann_minus_Trapezoid_witness :
  ((1 <= 1)%Z /\ (2 <= 2)%Z)
  /\ exists r t, Integral_Riemann (floats (fun x => x)) 0 1 1 = Ok r
                 /\ Integral_Trapezoid2 (floats (fun x => x)) 0 1 1 = Ok t
                 /\ r - t = (1 - 0) / IZR 1 / 2 * (1 - 0).
Proof.
  split; [split; lia |].
  apply (Riemann_minus_Trapezoid (fun x => x) 0 1 1 2); lia.
Defined.

(** ** Simpson's rule on its working range *)

Section SimpsonMore.

Variable f : R -> R.
Variables a b : R.

Lemma Integral_Trapezoid2_interior (n : Z) :
  (1 <= n)%Z ->
  Integral_Trapezoid2 (floats f) a b n
  = Ok ((1 / 2 * f a + 1 / 2 * f b
         + Sigma (fun k => f (abscissa a b n (1 + Z.of_nat k)))
                 (Z.to_nat (n - 1))) * Dx a b n).
Proof.
  intros Hn. rewrite Integral_Trapezoid2_eval by assumption. f_equal.
  replace (Z.to_nat n) with (S (Z.to_nat (n - 1))) by lia.
  rewrite (Sigma_left_right (fun i => f (abscissa a b n i))).
  replace (Z.of_nat (S (Z.to_nat (n - 1)))) with n by lia.
  rewrite abscissa_0, abscissa_n by lia. lra.
Qed.

Lemma even_half (n : Z) : Z.even n = true -> n = (2 * (n / 2))%Z.
Proof.
  intros He. apply Zeven_bool_iff, Zeven_div2 in He.
  now rewrite Zdiv2_div in He.
Qed.

Lemma odd_half (n : Z) : Z.odd n = true -> n = (2 * (n / 2) + 1)%Z.
Proof.
  intros Ho. apply Zodd_bool_iff, Zodd_div2 in Ho.
  now rewrite Zdiv2_div in Ho.
Qed.

(** The interior points of the partition in [2*m] parts, split by parity. *)
Lemma interior_even_odd (g : Z -> R) (m : nat) :
  Sigma (fun k => g (1 + Z.of_nat k)%Z) (2 * m + 1)
  = Sigma (fun k => g (1 + 2 * Z.of_nat k)%Z) (S m)
    + Sigma (fun k => g (2 + 2 * Z.of_nat k)%Z) m.
Proof.
  rewrite Nat.add_1_r, Sigma_S, Sigma_even_odd, Sigma_S.
  rewrite (Sigma_ext (fun k => g (1 + Z.of_nat (2 * k))%Z)
                     (fun k => g (1 + 2 * Z.of_nat k)%Z))
    by (intros; f_equal; lia).
  rewrite (Sigma_ext (fun k => g (1 + Z.of_nat (2 * k + 1))%Z)
                     (fun k => g (2 + 2 * Z.of_nat k)%Z))
    by (intros; f_equal; lia).
  replace (1 + Z.of_nat (2 * m))%Z with (1 + 2 * Z.of_nat m)%Z by lia.
  lra.
Qed.

(** The partition in [n/2] parts is every other point of the partition in
    [n] parts. *)
Lemma abscissa_half (n i : Z) :
  (2 <= n)%Z -> Z.even n = true ->
  abscissa a b (n / 2) i = abscissa a b n (2 * i).
Proof.
  intros Hn He. apply even_half in He.
  unfold abscissa, Dx. rewrite He at 2. rewrite !mult_IZR.
  field. apply IZR_nonzero. lia.
Qed.

Lemma Dx_half (n : Z) :
  (2 <= n)%Z -> Z.even n = true -> Dx a b (n / 2) = 2 * Dx a b n.
Proof.
  intros Hn He. apply even_half in He.
  unfold Dx. rewrite He at 2. rewrite mult_IZR.
  field. apply IZR_nonzero. lia.
Qed.

Lemma Simpson_Richardson (n : Z) :
  (4 <= n)%Z -> Z.even n = true ->
  exists s t t',
    Integral_SimpsonRule (floats f) a b n = Ok s
    /\ Integral_Trapezoid2 (floats f) a b n = Ok t
    /\ Integral_Trapezoid2 (floats f) a b (n / 2) = Ok t'
    /\ s = (4 * t - t') / 3.
Proof.
  intros Hn He. pose proof (even_half n He) as E.
  do 3 eexists.
  split; [apply Integral_SimpsonRule_eval; lia |].
  split; [apply Integral_Trapezoid2_interior; lia |].
  split; [apply Integral_Trapezoid2_interior; lia |].
  rewrite Dx_half by (assumption || lia).
  rewrite (Sigma_ext (fun k => f (abscissa a b (n / 2) (1 + Z.of_nat k)))
                     (fun k => f (abscissa a b n (2 + 2 * Z.of_nat k)))).
  2:{ intros k _. rewrite abscissa_half by (assumption || lia).
      do 2 f_equal. lia. }
  replace ((n - 2) / 2)%Z with (n / 2 - 1)%Z
    by (apply Z.div_unique with (r := 0%Z); lia).
  remember (Z.to_nat (n / 2 - 1)) as m eqn:Em.
  replace (Z.to_nat (n / 2)) with (S m) by lia.
  replace (Z.to_nat (n - 1)) with (2 * m + 1)%nat by lia.
  rewrite (interior_even_odd (fun i => f (abscissa a b n i))).
  field.
Qed.

Lemma Dx_drop_last (n : Z) :
  (2 <= n)%Z -> Dx a (abscissa a b n (n - 1)) (n - 1) = Dx a b n.
Proof.
  intros Hn. unfold abscissa, Dx. rewrite minus_IZR.
  field. split; [apply IZR_nonzero; lia |].
  rewrite <- minus_IZR. apply IZR_nonzero. lia.
Qed.

Lemma abscissa_drop_last (n i : Z) :
  (2 <= n)%Z ->
  abscissa a (abscissa a b n (n - 1)) (n - 1) i = abscissa a b n i.
Proof.
  intros Hn. unfold abscissa at 1. rewrite Dx_drop_last by assumption.
  reflexivity.
Qed.

Lemma Simpson_odd (n : Z) :
  (5 <= n)%Z -> Z.odd n = true ->
  exists v v',
    Integral_SimpsonRule (floats f) a b n = Ok v
    /\ Integral_SimpsonRule (floats f) a (abscissa a b n (n - 1)) (n - 1) = Ok v'
    /\ v = v' + Dx a b n / 3 * (f b - f (abscissa a b n (n - 1))).
Proof.
  intros Hn Ho. pose proof (odd_half n Ho) as E.
  do 2 eexists.
  split; [apply Integral_SimpsonRule_eval; lia |].
  split; [apply Integral_SimpsonRule_eval; lia |].
  rewrite Dx_drop_last by lia.
  replace ((n - 1) / 2)%Z with (n / 2)%Z
    by (apply Z.div_unique with (r := 0%Z); lia).
  replace ((n - 1 - 2) / 2)%Z with (n / 2 - 1)%Z
    by (apply Z.div_unique with (r := 0%Z); lia).
  replace ((n - 2) / 2)%Z with (n / 2 - 1)%Z
    by (apply Z.div_unique with (r := 1%Z); lia).
  rewrite (Sigma_ext
             (fun k => f (abscissa a (abscissa a b n (n - 1)) (n - 1)
                            (1 + 2 * Z.of_nat k)))
             (fun k => f (abscissa a b n (1 + 2 * Z.of_nat k))))
    by (intros; now rewrite abscissa_drop_last by lia).
  rewrite (Sigma_ext
             (fun k => f (abscissa a (abscissa a b n (n - 1)) (n - 1)
                            (2 + 2 * Z.of_nat k)))
             (fun k => f (abscissa a b n (2 + 2 * Z.of_nat k))))
    by (intros; now rewrite abscissa_drop_last by lia).
  field.
Qed.

End SimpsonMore.

Section SimpsonOddAny.

Variable f : R -> pynum.
Variables a b : R.

Lemma Simpson_odd_any (n : Z) :
  (5 <= n)%Z -> Z.odd n = true ->
  exists v v',
    Integral_SimpsonRule f a b n = Ok v
    /\ Integral_SimpsonRule f a (abscissa a b n (n - 1)) (n - 1) = Ok v'
    /\ v = v' + Dx a b n / 3
                * (to_float (f b) - to_float (f (abscissa a b n (n - 1)))).
Proof.
  intros Hn Ho. pose proof (odd_half n Ho) as E.
  do 2 eexists.
  split; [apply Integral_SimpsonRule_eval_any; lia |].
  split; [apply Integral_SimpsonRule_eval_any; lia |].
  rewrite Dx_drop_last by lia.
  replace ((n - 1) / 2)%Z with (n / 2)%Z
    by (apply Z.div_unique with (r := 0%Z); lia).
  replace ((n - 1 - 2) / 2)%Z with (n / 2 - 1)%Z
    by (apply Z.div_unique with (r := 0%Z); lia).
  replace ((n - 2) / 2)%Z with (n / 2 - 1)%Z
    by (apply Z.div_unique with (r := 1%Z); lia).
  rewrite (Sigma_ext
             (fun k => sample f
                         (abscissa a (abscissa a b n (n - 1)) (n - 1) 1)
                         (abscissa a (abscissa a b n (n - 1)) (n - 1)
                            (1 + 2 * Z.of_nat k)))
             (fun k => sample f (abscissa a b n 1)
                         (abscissa a b n (1 + 2 * Z.of_nat k))))
    by (intros; now rewrite !abscissa_drop_last by lia).
  rewrite (Sigma_ext
             (fun k => sample f
                         (abscissa a (abscissa a b n (n - 1)) (n - 1) 2)
                         (abscissa a (abscissa a b n (n - 1)) (n - 1)
                            (2 + 2 * Z.of_nat k)))
             (fun k => sample f (abscissa a b n 2)
                         (abscissa a b n (2 + 2 * Z.of_nat k))))
    by (intros; now rewrite !abscissa_drop_last by lia).
  field.
Qed.

End SimpsonOddAny.

(** X4.  For an even [n >= 4], [Integral_SimpsonRule (floats f) a b n] returns
    [(Dx/3) * (f(a) + f(b) + 4*(f x_1 + f x_3 + ... + f x_(n-1))
                           + 2*(f x_2 + f x_4 + ... + f x_(n-2)))]
    with [Dx = (b-a)/n] and [x_i = a + i*Dx].
    The integrand returns a float at every point. *)
Theorem Simpson_rule (f : R -> R) (a b : R) (n : Z) :
  (4 <= n)%Z -> Z.even n = true ->
  Integral_SimpsonRule (floats f) a b n
  = Ok ((b - a) / IZR n / 3
        * (f a + f b
           + 4 * sum_f_R0
                   (fun k => f (a + INR (2 * k + 1) * ((b - a) / IZR n)))
                   (Z.to_nat (n / 2) - 1)
           + 2 * sum_f 1 (Z.to_nat (n / 2) - 1)
                   (fun k => f (a + INR (2 * k) * ((b - a) / IZR n))))).
Proof. intros Hn He. exact (Integral_SimpsonRule_sum_f f a b n Hn He). Qed.

Lemma Simpson_rule_witness :
  ((4 <= 4)%Z /\ Z.even 4 = true)
  /\ Integral_SimpsonRule (floats (fun x => x)) 0 1 4
     = Ok ((1 - 0) / IZR 4 / 3
           * (0 + 1
              + 4 * sum_f_R0
                      (fun k => 0 + INR (2 * k + 1) * ((1 - 0) / IZR 4))
                      (Z.to_nat (4 / 2) - 1)
              + 2 * sum_f 1 (Z.to_nat (4 / 2) - 1)
                      (fun k => 0 + INR (2 * k) * ((1 - 0) / IZR 4)))).
Proof.
  split; [split; [lia | reflexivity] |].
  apply (Simpson_rule (fun x => x) 0 1 4); [lia | reflexivity].
Defined.

(** X5.  For an even [n >= 4], Simpson's rule is exact on every
    polynomial [p] of degree at most 3: it returns [P(b) - P(a)], where [P]
    is the antiderivative of [p] ([P' = p] at every point). *)
Theorem Simpson_exact_on_cubics (c0 c1 c2 c3 a b : R) (n : Z) :
  (4 <= n)%Z -> Z.even n = true ->
  Integral_SimpsonRule (floats (cubic c0 c1 c2 c3)) a b n
  = Ok (cubic_primitive c0 c1 c2 c3 b - cubic_primitive c0 c1 c2 c3 a)
  /\ (forall x, derivable_pt_lim (cubic_primitive c0 c1 c2 c3) x
                                 (cubic c0 c1 c2 c3 x)).
Proof.
  intros Hn He. split.
  - now apply Integral_SimpsonRule_cubic.
  - apply cubic_primitive_derivative.
Qed.

Lemma Simpson_exact_on_cubics_witness :
  ((4 <= 6)%Z /\ Z.even 6 = true)
  /\ Integral_SimpsonRule (floats (cubic 1 2 3 4)) 0 1 6
     = Ok (cubic_primitive 1 2 3 4 1 - cubic_primitive 1 2 3 4 0).
Proof.
  split; [split; [lia | reflexivity] |].
  apply (Simpson_exact_on_cubics 1 2 3 4 0 1 6); [lia | reflexivity].
Defined.

(** X7.  On an odd [n >= 5] Simpson's rule does not integrate the last
    subinterval: it returns what it returns on [a, x_(n-1)] with [n-1]
    subdivisions, plus [(Dx/3) * (f(b) - f(x_(n-1)))].
    The integrand may return ints or floats. *)
Theorem Simpson_odd_drops_last (f : R -> pynum) (a b : R) (n : Z) :
  (5 <= n)%Z -> Z.odd n = true ->
  exists v v',
    Integral_SimpsonRule f a b n = Ok v
    /\ Integral_SimpsonRule f a (a + IZR (n - 1) * ((b - a) / IZR n)) (n - 1)
       = Ok v'
    /\ v = v' + (b - a) / IZR n / 3
                * (to_float (f b)
                   - to_float (f (a + IZR (n - 1) * ((b - a) / IZR n)))).
Proof. intros Hn Ho. exact (Simpson_odd_any f a b n Hn Ho). Qed.

Lemma Simpson_odd_drops_last_witness :
  ((5 <= 5)%Z /\ Z.odd 5 = true)
  /\ exists v v',
       Integral_SimpsonRule (floats (fun x => x)) 0 1 5 = Ok v
       /\ Integral_SimpsonRule (floats (fun x => x)) 0
            (0 + IZR (5 - 1) * ((1 - 0) / IZR 5)) (5 - 1) = Ok v'
       /\ v = v' + (1 - 0) / IZR 5 / 3
                   * (1 - (0 + IZR (5 - 1) * ((1 - 0) / IZR 5))).
Proof.
  split; [split; [lia | reflexivity] |].
  apply (Simpson_odd_drops_last (floats (fun x => x)) 0 1 5);
    [lia | reflexivity].
Defined.

(** X12.  For an even [n >= 4], Simpson's rule is the Richardson
    combination of the trapezoid rule on [n] and on [n/2] subdivisions:
    [Simpson(n) = (4*Trapezoid(n) - Trapezoid(n/2)) / 3].
    The integrand returns a float at every point. *)
Theorem Simpson_from_trapezoids (f : R -> R) (a b : R) (n : Z) :
  (4 <= n)%Z -> Z.even n = true ->
  exists s t t',
    Integral_SimpsonRule (floats f) a b n = Ok s
    /\ Integral_Trapezoid2 (floats f) a b n = Ok t
    /\ Integral_Trapezoid2 (floats f) a b (n / 2) = Ok t'
    /\ s = (4 * t - t') / 3.
Proof. intros Hn He. exact (Simpson_Richardson f a b n Hn He). Qed.

Lemma Simpson_from_trapezoids_witness :
  ((4 <= 4)%Z /\ Z.even 4 = true)
  /\ exists s t t',
       Integral_SimpsonRule (floats (fun x => x * x)) 0 1 4 = Ok s
       /\ Integral_Trapezoid2 (floats (fun x => x * x)) 0 1 4 = Ok t
       /\ Integral_Trapezoid2 (floats (fun x => x * x)) 0 1 (4 / 2) = Ok t'
       /\ s = (4 * t - t') / 3.
Proof.
  split; [split; [lia | reflexivity] |].
  apply (Simpson_from_trapezoids (fun x => x * x) 0 1 4); [lia | reflexivity].
Defined.

(** ** Linearity, monotonicity and locality of the rules *)

Section Linearity.

Variables f g : R -> R.
Variables al be a b : R.

Ltac lin_rule ev :=
  do 2 eexists;
  split; [apply ev; lia |];
  split; [apply ev; lia |];
  rewrite ev by lia; f_equal; cbv beta;
  rewrite ?Sigma_lin, ?half_decimal; field.

Lemma Integral_Riemann_lin (n : Z) :
  (1 <= n)%Z ->
  exists u v, Integral_Riemann (floats f) a b n = Ok u
              /\ Integral_Riemann (floats g) a b n = Ok v
              /\ Integral_Riemann (floats (fun x => al * f x + be * g x)) a b n
                 = Ok (al * u + be * v).
Proof. intros Hn. lin_rule Integral_Riemann_eval. Qed.

Lemma Integral_Trapezoid1_lin (n : Z) :
  (2 <= n)%Z ->
  exists u v, Integral_Trapezoid1 (floats f) a b n = Ok u
              /\ Integral_Trapezoid1 (floats g) a b n = Ok v
              /\ Integral_Trapezoid1 (floats (fun x => al * f x + be * g x)) a b n
                 = Ok (al * u + be * v).
Proof. intros Hn. lin_rule Integral_Trapezoid1_eval. Qed.

Lemma Integral_Trapezoid2_lin (n : Z) :
  (1 <= n)%Z ->
  exists u v, Integral_Trapezoid2 (floats f) a b n = Ok u
              /\ Integral_Trapezoid2 (floats g) a b n = Ok v
              /\ Integral_Trapezoid2 (floats (fun x => al * f x + be * g x)) a b n
                 = Ok (al * u + be * v).
Proof. intros Hn. lin_rule Integral_Trapezoid2_eval. Qed.

Lemma Integral_SimpsonRule_lin (n : Z) :
  (4 <= n)%Z ->
  exists u v, Integral_SimpsonRule (floats f) a b n = Ok u
              /\ Integral_SimpsonRule (floats g) a b n = Ok v
              /\ Integral_SimpsonRule (floats (fun x => al * f x + be * g x)) a b n
                 = Ok (al * u + be * v).
Proof. intros Hn. lin_rule Integral_SimpsonRule_eval. Qed.

End Linearity.

Section Monotonicity.

Variables f g : R -> R.
Variables a b : R.
Hypothesis Hab : a <= b.
Hypothesis Hfg : forall x, a <= x <= b -> f x <= g x.

Lemma Sigma_points_le (n : Z) (ix : nat -> Z) (m : nat) :
  (1 <= n)%Z ->
  (forall k, (k < m)%nat -> (0 <= ix k <= n)%Z) ->
  Sigma (fun k => f (abscissa a b n (ix k))) m
  <= Sigma (fun k => g (abscissa a b n (ix k))) m.
Proof.
  intros Hn Hix. apply Sigma_le. intros k Hk.
  apply Hfg, abscissa_in_interval; auto.
Qed.

Lemma ends_le : f a <= g a /\ f b <= g b.
Proof. split; apply Hfg; lra. Qed.

Ltac mono_rule ev n :=
  do 2 eexists;
  split; [apply ev; lia |];
  split; [apply ev; lia |];
  apply Rmult_le_compat_r; [apply Dx_nonneg; [exact Hab | lia] |];
  pose proof ends_le as [Ha Hb].

Lemma Integral_Riemann_mono (n : Z) :
  (1 <= n)%Z ->
  exists u v, Integral_Riemann (floats f) a b n = Ok u
              /\ Integral_Riemann (floats g) a b n = Ok v /\ u <= v.
Proof.
  intros Hn. mono_rule Integral_Riemann_eval n.
  apply Sigma_points_le; lia.
Qed.

Lemma Integral_Trapezoid1_mono (n : Z) :
  (2 <= n)%Z ->
  exists u v, Integral_Trapezoid1 (floats f) a b n = Ok u
              /\ Integral_Trapezoid1 (floats g) a b n = Ok v /\ u <= v.
Proof.
  intros Hn. mono_rule Integral_Trapezoid1_eval n.
  pose proof (Sigma_points_le n (fun k => (1 + Z.of_nat k)%Z)
                (Z.to_nat (n - 1))) as H.
  cbv beta in H. lapply H; [clear H; intros H | lia].
  lapply H; [clear H; intros H | lia]. lra.
Qed.

Lemma Integral_Trapezoid2_mono (n : Z) :
  (1 <= n)%Z ->
  exists u v, Integral_Trapezoid2 (floats f) a b n = Ok u
              /\ Integral_Trapezoid2 (floats g) a b n = Ok v /\ u <= v.
Proof.
  intros Hn. mono_rule Integral_Trapezoid2_eval n.
  apply Rmult_le_compat_r; [lra |].
  apply Rplus_le_compat; apply Sigma_points_le; lia.
Qed.

Lemma Integral_SimpsonRule_mono (n : Z) :
  (4 <= n)%Z ->
  exists u v, Integral_SimpsonRule (floats f) a b n = Ok u
              /\ Integral_SimpsonRule (floats g) a b n = Ok v /\ u <= v.
Proof.
  intros Hn. mono_rule Integral_SimpsonRule_eval n.
  assert (Hq : (2 * (n / 2) <= n)%Z) by (apply Z.mul_div_le; lia).
  assert (Hq' : (2 * ((n - 2) / 2) <= n - 2)%Z) by (apply Z.mul_div_le; lia).
  pose proof (Sigma_points_le n (fun k => (1 + 2 * Z.of_nat k)%Z)
                (Z.to_nat (n / 2))) as Ho.
  pose proof (Sigma_points_le n (fun k => (2 + 2 * Z.of_nat k)%Z)
                (Z.to_nat ((n - 2) / 2))) as Hev.
  cbv beta in Ho, Hev.
  lapply Ho; [clear Ho; intros Ho | lia].
  lapply Ho; [clear Ho; intros Ho | lia].
  lapply Hev; [clear Hev; intros Hev | lia].
  lapply Hev; [clear Hev; intros Hev | lia].
  lra.
Qed.

End Monotonicity.

Section Bounds.

Variable f : R -> R.
Variables a b lo hi : R.
Hypothesis Hab : a <= b.
Hypothesis Hf : forall x, a <= x <= b -> lo <= f x <= hi.

Ltac bound_rule mono const n Hn :=
  destruct (mono (fun _ : R => lo) f a b Hab (fun x Hx => proj1 (Hf x Hx))
              n Hn) as (u & v & Hu & Hv & Huv);
  destruct (mono f (fun _ : R => hi) a b Hab (fun x Hx => proj2 (Hf x Hx))
              n Hn) as (v' & w & Hv' & Hw & Hvw);
  rewrite const in Hu, Hw by assumption;
  rewrite Hv in Hv';
  injection Hu as <-; injection Hw as <-; injection Hv' as <-;
  exists v; split; [exact Hv | split; assumption].

Lemma Integral_Riemann_bounds (n : Z) :
  (1 <= n)%Z ->
  exists v, Integral_Riemann (floats f) a b n = Ok v
            /\ lo * (b - a) <= v <= hi * (b - a).
Proof.
  intros Hn. bound_rule Integral_Riemann_mono Integral_Riemann_const n Hn.
Qed.

Lemma Integral_Trapezoid1_bounds (n : Z) :
  (2 <= n)%Z ->
  exists v, Integral_Trapezoid1 (floats f) a b n = Ok v
            /\ lo * (b - a) <= v <= hi * (b - a).
Proof.
  intros Hn. bound_rule Integral_Trapezoid1_mono Integral_Trapezoid1_const n Hn.
Qed.

Lemma Integral_Trapezoid2_bounds (n : Z) :
  (1 <= n)%Z ->
  exists v, Integral_Trapezoid2 (floats f) a b n = Ok v
            /\ lo * (b - a) <= v <= hi * (b - a).
Proof.
  intros Hn. bound_rule Integral_Trapezoid2_mono Integral_Trapezoid2_const n Hn.
Qed.

Lemma Integral_SimpsonRule_bounds (n : Z) :
  (4 <= n)%Z -> Z.even n = true ->
  exists v, Integral_SimpsonRule (floats f) a b n = Ok v
            /\ lo * (b - a) <= v <= hi * (b - a).
Proof.
  intros Hn He.
  bound_rule Integral_SimpsonRule_mono Integral_SimpsonRule_const n Hn.
Qed.

End Bounds.

Section Locality.

Variables f g : R -> R.
Variables a b : R.

Lemma Sigma_points_ext (n : Z) (ix : nat -> Z) (m : nat) :
  (forall i, (0 <= i <= n)%Z -> g (abscissa a b n i) = f (abscissa a b n i)) ->
  (forall k, (k < m)%nat -> (0 <= ix k <= n)%Z) ->
  Sigma (fun k => g (abscissa a b n (ix k))) m
  = Sigma (fun k => f (abscissa a b n (ix k))) m.
Proof. intros Hg Hix. apply Sigma_ext. intros k Hk. apply Hg, Hix, Hk. Qed.

Lemma ends_ext (n : Z) :
  (1 <= n)%Z ->
  (forall i, (0 <= i <= n)%Z -> g (abscissa a b n i) = f (abscissa a b n i)) ->
  g a = f a /\ g b = f b.
Proof.
  intros Hn Hg. split.
  - rewrite <- (abscissa_0 a b n). apply Hg. lia.
  - rewrite <- (abscissa_n a b n) by lia. apply Hg. lia.
Qed.

Lemma Integral_Trapezoid1_ext (n : Z) :
  (2 <= n)%Z ->
  (forall i, (0 <= i <= n)%Z -> g (abscissa a b n i) = f (abscissa a b n i)) ->
  Integral_Trapezoid1 (floats g) a b n = Integral_Trapezoid1 (floats f) a b n.
Proof.
  intros Hn Hg. rewrite !Integral_Trapezoid1_eval by assumption.
  destruct (ends_ext n ltac:(lia) Hg) as [-> ->].
  rewrite (Sigma_points_ext n (fun k => (1 + Z.of_nat k)%Z)) by (auto; lia).
  reflexivity.
Qed.

Lemma Integral_Trapezoid2_ext (n : Z) :
  (1 <= n)%Z ->
  (forall i, (0 <= i <= n)%Z -> g (abscissa a b n i) = f (abscissa a b n i)) ->
  Integral_Trapezoid2 (floats g) a b n = Integral_Trapezoid2 (floats f) a b n.
Proof.
  intros Hn Hg. rewrite !Integral_Trapezoid2_eval by assumption.
  rewrite (Sigma_points_ext n (fun k => (0 + Z.of_nat k)%Z)) by (auto; lia).
  rewrite (Sigma_points_ext n (fun k => (1 + Z.of_nat k)%Z)) by (auto; lia).
  reflexivity.
Qed.

Lemma Integral_SimpsonRule_ext (n : Z) :
  (4 <= n)%Z ->
  (forall i, (0 <= i <= n)%Z -> g (abscissa a b n i) = f (abscissa a b n i)) ->
  Integral_SimpsonRule (floats g) a b n = Integral_SimpsonRule (floats f) a b n.
Proof.
  intros Hn Hg. rewrite !Integral_SimpsonRule_eval by assumption.
  destruct (ends_ext n ltac:(lia) Hg) as [-> ->].
  assert (Hq : (2 * (n / 2) <= n)%Z) by (apply Z.mul_div_le; lia).
  assert (Hq' : (2 * ((n - 2) / 2) <= n - 2)%Z) by (apply Z.mul_div_le; lia).
  rewrite (Sigma_points_ext n (fun k => (1 + 2 * Z.of_nat k)%Z))
    by (auto; lia).
  rewrite (Sigma_points_ext n (fun k => (2 + 2 * Z.of_nat k)%Z))
    by (auto; lia).
  reflexivity.
Qed.

End Locality.

Section Degenerate.

Variable f : R -> R.
Variable a : R.

Lemma Dx_same (n : Z) : Dx a a n = 0.
Proof. unfold Dx. unfold Rdiv. ring. Qed.

Lemma Integral_Riemann_same (n : Z) :
  (1 <= n)%Z -> Integral_Riemann (floats f) a a n = Ok 0.
Proof.
  intros Hn. rewrite Integral_Riemann_eval, Dx_same by assumption.
  f_equal. ring.
Qed.

Lemma Integral_Trapezoid1_same (n : Z) :
  (2 <= n)%Z -> Integral_Trapezoid1 (floats f) a a n = Ok 0.
Proof.
  intros Hn. rewrite Integral_Trapezoid1_eval, Dx_same by assumption.
  f_equal. ring.
Qed.

Lemma Integral_Trapezoid2_same (n : Z) :
  (1 <= n)%Z -> Integral_Trapezoid2 (floats f) a a n = Ok 0.
Proof.
  intros Hn. rewrite Integral_Trapezoid2_eval, Dx_same by assumption.
  f_equal. ring.
Qed.

Lemma Integral_SimpsonRule_same (n : Z) :
  (4 <= n)%Z -> Integral_SimpsonRule (floats f) a a n = Ok 0.
Proof.
  intros Hn. rewrite Integral_SimpsonRule_eval, Dx_same by assumption.
  f_equal. ring.
Qed.

End Degenerate.

(** ** Splitting the interval at a partition point *)

Section Additivity.

Variable f : R -> R.
Variables a b : R.
Variables n k : Z.
Hypothesis Hk : (1 <= k)%Z.
Hypothesis Hkn : (k + 1 <= n)%Z.

Lemma Dx_left : Dx a (abscissa a b n k) k = Dx a b n.
Proof.
  unfold abscissa, Dx. field.
  split; apply IZR_nonzero; lia.
Qed.

Lemma Dx_right : Dx (abscissa a b n k) b (n - k) = Dx a b n.
Proof.
  unfold abscissa, Dx. rewrite minus_IZR. field.
  split; [apply IZR_nonzero; lia |].
  rewrite <- minus_IZR. apply IZR_nonzero. lia.
Qed.

Lemma abscissa_left (i : Z) :
  abscissa a (abscissa a b n k) k i = abscissa a b n i.
Proof. unfold abscissa at 1. rewrite Dx_left. reflexivity. Qed.

Lemma abscissa_right (i : Z) :
  abscissa (abscissa a b n k) b (n - k) i = abscissa a b n (k + i).
Proof.
  unfold abscissa at 1. rewrite Dx_right.
  unfold abscissa. rewrite plus_IZR. ring.
Qed.

Lemma Sigma_split (g : Z -> R) (lo : Z) :
  Sigma (fun j => g (lo + Z.of_nat j)%Z) (Z.to_nat n)
  = Sigma (fun j => g (lo + Z.of_nat j)%Z) (Z.to_nat k)
    + Sigma (fun j => g (k + (lo + Z.of_nat j))%Z) (Z.to_nat (n - k)).
Proof.
  replace (Z.to_nat n) with (Z.to_nat k + Z.to_nat (n - k))%nat by lia.
  rewrite Sigma_app. f_equal.
  apply Sigma_ext. intros j _. f_equal. lia.
Qed.

Lemma Integral_Riemann_split :
  exists u v w,
    Integral_Riemann (floats f) a (abscissa a b n k) k = Ok u
    /\ Integral_Riemann (floats f) (abscissa a b n k) b (n - k) = Ok v
    /\ Integral_Riemann (floats f) a b n = Ok w
    /\ w = u + v.
Proof.
  do 3 eexists.
  split; [apply Integral_Riemann_eval; lia |].
  split; [apply Integral_Riemann_eval; lia |].
  split; [apply Integral_Riemann_eval; lia |].
  rewrite Dx_left, Dx_right.
  rewrite (Sigma_split (fun i => f (abscissa a b n i)) 1).
  rewrite (Sigma_ext (fun j => f (abscissa a (abscissa a b n k) k
                                    (1 + Z.of_nat j)))
                     (fun j => f (abscissa a b n (1 + Z.of_nat j))))
    by (intros; now rewrite abscissa_left).
  rewrite (Sigma_ext (fun j => f (abscissa (abscissa a b n k) b (n - k)
                                    (1 + Z.of_nat j)))
                     (fun j => f (abscissa a b n (k + (1 + Z.of_nat j)))))
    by (intros; now rewrite abscissa_right).
  ring.
Qed.

Lemma Integral_Trapezoid2_split :
  exists u v w,
    Integral_Trapezoid2 (floats f) a (abscissa a b n k) k = Ok u
    /\ Integral_Trapezoid2 (floats f) (abscissa a b n k) b (n - k) = Ok v
    /\ Integral_Trapezoid2 (floats f) a b n = Ok w
    /\ w = u + v.
Proof.
  do 3 eexists.
  split; [apply Integral_Trapezoid2_eval; lia |].
  split; [apply Integral_Trapezoid2_eval; lia |].
  split; [apply Integral_Trapezoid2_eval; lia |].
  rewrite Dx_left, Dx_right.
  rewrite (Sigma_split (fun i => f (abscissa a b n i)) 0).
  rewrite (Sigma_split (fun i => f (abscissa a b n i)) 1).
  rewrite (Sigma_ext (fun j => f (abscissa a (abscissa a b n k) k
                                    (0 + Z.of_nat j)))
                     (fun j => f (abscissa a b n (0 + Z.of_nat j))))
    by (intros; now rewrite abscissa_left).
  rewrite (Sigma_ext (fun j => f (abscissa a (abscissa a b n k) k
                                    (1 + Z.of_nat j)))
                     (fun j => f (abscissa a b n (1 + Z.of_nat j))))
    by (intros; now rewrite abscissa_left).
  rewrite (Sigma_ext (fun j => f (abscissa (abscissa a b n k) b (n - k)
                                    (0 + Z.of_nat j)))
                     (fun j => f (abscissa a b n (k + (0 + Z.of_nat j)))))
    by (intros; now rewrite abscissa_right).
  rewrite (Sigma_ext (fun j => f (abscissa (abscissa a b n k) b (n - k)
                                    (1 + Z.of_nat j)))
                     (fun j => f (abscissa a b n (k + (1 + Z.of_nat j)))))
    by (intros; now rewrite abscissa_right).
  ring.
Qed.

End Additivity.

Section TrapezoidFromRiemann.

Variable f : R -> R.
Variables a b : R.

Lemma Ok_inj (x y : R) : Ok x = Ok y -> x = y.
Proof. intros H. now injection H. Qed.

Lemma Integral_Trapezoid2_Riemann (n : Z) :
  (1 <= n)%Z ->
  exists t r r',
    Integral_Trapezoid2 (floats f) a b n = Ok t
    /\ Integral_Riemann (floats f) a b n = Ok r
    /\ Integral_Riemann (floats f) b a n = Ok r'
    /\ t = (r - r') / 2.
Proof.
  intros Hn.
  destruct (Integral_Riemann_swap f a b n Hn) as (r & Hr & Hr').
  rewrite Integral_Riemann_eval in Hr by assumption. apply Ok_inj in Hr.
  do 3 eexists.
  split; [apply Integral_Trapezoid2_interior; assumption |].
  split; [apply Integral_Riemann_eval; assumption |].
  split; [exact Hr' |].
  rewrite <- Hr.
  replace (Z.to_nat n) with (S (Z.to_nat (n - 1))) by lia.
  rewrite Sigma_S.
  replace (1 + Z.of_nat (Z.to_nat (n - 1)))%Z with n by lia.
  rewrite abscissa_n by lia. field.
Qed.

End TrapezoidFromRiemann.

(** ** The rules as operators on the integrand *)

(** X8.  Each rule is linear in the integrand: on
    [al*f + be*g] it returns [al*u + be*v], where [u] and [v] are its
    values on [f] and on [g] (Riemann and second trapezoid formulation for
    [n >= 1], first trapezoid formulation for [n >= 2], Simpson for
    [n >= 4]).
    The integrands return a float at every point. *)
Theorem rules_linear (f g : R -> R) (al be a b : R) (n1 n2 n4 : Z) :
  (1 <= n1)%Z -> (2 <= n2)%Z -> (4 <= n4)%Z ->
  (exists u v, Integral_Riemann (floats f) a b n1 = Ok u
               /\ Integral_Riemann (floats g) a b n1 = Ok v
               /\ Integral_Riemann (floats (fun x => al * f x + be * g x)) a b n1
                  = Ok (al * u + be * v))
  /\ (exists u v, Integral_Trapezoid1 (floats f) a b n2 = Ok u
                  /\ Integral_Trapezoid1 (floats g) a b n2 = Ok v
                  /\ Integral_Trapezoid1 (floats (fun x => al * f x + be * g x)) a b n2
                     = Ok (al * u + be * v))
  /\ (exists u v, Integral_Trapezoid2 (floats f) a b n1 = Ok u
                  /\ Integral_Trapezoid2 (floats g) a b n1 = Ok v
                  /\ Integral_Trapezoid2 (floats (fun x => al * f x + be * g x)) a b n1
                     = Ok (al * u + be * v))
  /\ (exists u v, Integral_SimpsonRule (floats f) a b n4 = Ok u
                  /\ Integral_SimpsonRule (floats g) a b n4 = Ok v
                  /\ Integral_SimpsonRule (floats (fun x => al * f x + be * g x)) a b n4
                     = Ok (al * u + be * v)).
Proof.
  intros H1 H2 H4. repeat apply conj.
  - now apply Integral_Riemann_lin.
  - now apply Integral_Trapezoid1_lin.
  - now apply Integral_Trapezoid2_lin.
  - now apply Integral_SimpsonRule_lin.
Qed.

Lemma rules_linear_witness :
  ((1 <= 1)%Z /\ (2 <= 2)%Z /\ (4 <= 4)%Z)
  /\ exists u v, Integral_Riemann (floats (fun x => x)) 0 1 1 = Ok u
                 /\ Integral_Riemann (floats (fun x => x * x)) 0 1 1 = Ok v
                 /\ Integral_Riemann (floats (fun x => 2 * x + 3 * (x * x))) 0 1 1
                    = Ok (2 * u + 3 * v).
Proof.
  split; [repeat split; lia |].
  apply (rules_linear (fun x => x) (fun x => x * x) 2 3 0 1 1 2 4); lia.
Defined.

(** X9.  Over [a <= b] each rule is monotone in the integrand: if
    [f <= g] on [a, b], the value on [f] is at most the value on [g].
    The integrands return a float at every point. *)
Theorem rules_monotone (f g : R -> R) (a b : R) (n1 n2 n4 : Z) :
  a <= b -> (forall x, a <= x <= b -> f x <= g x) ->
  (1 <= n1)%Z -> (2 <= n2)%Z -> (4 <= n4)%Z ->
  (exists u v, Integral_Riemann (floats f) a b n1 = Ok u
               /\ Integral_Riemann (floats g) a b n1 = Ok v /\ u <= v)
  /\ (exists u v, Integral_Trapezoid1 (floats f) a b n2 = Ok u
                  /\ Integral_Trapezoid1 (floats g) a b n2 = Ok v /\ u <= v)
  /\ (exists u v, Integral_Trapezoid2 (floats f) a b n1 = Ok u
                  /\ Integral_Trapezoid2 (floats g) a b n1 = Ok v /\ u <= v)
  /\ (exists u v, Integral_SimpsonRule (floats f) a b n4 = Ok u
                  /\ Integral_SimpsonRule (floats g) a b n4 = Ok v /\ u <= v).
Proof.
  intros Hab Hfg H1 H2 H4. repeat apply conj.
  - now apply Integral_Riemann_mono.
  - now apply Integral_Trapezoid1_mono.
  - now apply Integral_Trapezoid2_mono.
  - now apply Integral_SimpsonRule_mono.
Qed.

Lemma rules_monotone_witness :
  (0 <= 1 /\ (forall x : R, 0 <= x <= 1 -> x * x <= x)
   /\ (1 <= 1)%Z /\ (2 <= 2)%Z /\ (4 <= 4)%Z)
  /\ exists u v, Integral_Riemann (floats (fun x => x * x)) 0 1 1 = Ok u
                 /\ Integral_Riemann (floats (fun x => x)) 0 1 1 = Ok v /\ u <= v.
Proof.
  assert (H : forall x : R, 0 <= x <= 1 -> x * x <= x) by (intros; nra).
  split; [repeat split; (lra || lia || exact H) |].
  apply (rules_monotone (fun x => x * x) (fun x => x) 0 1 1 2 4);
    (lra || lia || exact H).
Defined.

(** X10.  Over [a <= b], if [lo <= f <= hi] on [a, b] then the value [v]
    of each rule satisfies [lo*(b-a) <= v <= hi*(b-a)] (Simpson: for an
    even [n >= 4]).
    The integrand returns a float at every point. *)
Theorem rules_bounded (f : R -> R) (a b lo hi : R) (n1 n2 n4 : Z) :
  a <= b -> (forall x, a <= x <= b -> lo <= f x <= hi) ->
  (1 <= n1)%Z -> (2 <= n2)%Z -> (4 <= n4)%Z -> Z.even n4 = true ->
  (exists v, Integral_Riemann (floats f) a b n1 = Ok v
             /\ lo * (b - a) <= v <= hi * (b - a))
  /\ (exists v, Integral_Trapezoid1 (floats f) a b n2 = Ok v
                /\ lo * (b - a) <= v <= hi * (b - a))
  /\ (exists v, Integral_Trapezoid2 (floats f) a b n1 = Ok v
                /\ lo * (b - a) <= v <= hi * (b - a))
  /\ (exists v, Integral_SimpsonRule (floats f) a b n4 = Ok v
                /\ lo * (b - a) <= v <= hi * (b - a)).
Proof.
  intros Hab Hf H1 H2 H4 He. repeat apply conj.
  - now apply Integral_Riemann_bounds.
  - now apply Integral_Trapezoid1_bounds.
  - now apply Integral_Trapezoid2_bounds.
  - now apply Integral_SimpsonRule_bounds.
Qed.

Lemma rules_bounded_witness :
  (0 <= 1 /\ (forall x : R, 0 <= x <= 1 -> 0 <= x <= 1)
   /\ (1 <= 1)%Z /\ (2 <= 2)%Z /\ (4 <= 4)%Z /\ Z.even 4 = true)
  /\ exists v, Integral_SimpsonRule (floats (fun x => x)) 0 1 4 = Ok v
               /\ 0 * (1 - 0) <= v <= 1 * (1 - 0).
Proof.
  split; [repeat split; (lra || lia || reflexivity) |].
  apply (rules_bounded (fun x => x) 0 1 0 1 1 2 4);
    (lra || lia || reflexivity || (intros; lra)).
Defined.

(** X11.  The trapezoid formulations and Simpson's rule read the
    integrand at the partition points [x_0 .. x_n] only: a function that
    agrees with [f] there gives the same result.
    Both functions return a float at every point. *)
Theorem rules_local (f g : R -> R) (a b : R) (n : Z) :
  (4 <= n)%Z ->
  (forall i, (0 <= i <= n)%Z ->
             g (a + IZR i * ((b - a) / IZR n))
             = f (a + IZR i * ((b - a) / IZR n))) ->
  Integral_Trapezoid1 (floats g) a b n = Integral_Trapezoid1 (floats f) a b n
  /\ Integral_Trapezoid2 (floats g) a b n = Integral_Trapezoid2 (floats f) a b n
  /\ Integral_SimpsonRule (floats g) a b n = Integral_SimpsonRule (floats f) a b n.
Proof.
  intros Hn Hg. repeat apply conj.
  - apply Integral_Trapezoid1_ext; [lia | exact Hg].
  - apply Integral_Trapezoid2_ext; [lia | exact Hg].
  - apply Integral_SimpsonRule_ext; [lia | exact Hg].
Qed.

Lemma rules_local_witness :
  ((4 <= 4)%Z
   /\ (forall i, (0 <= i <= 4)%Z ->
                 (fun x : R => x) (0 + IZR i * ((1 - 0) / IZR 4))
                 = (fun x : R => x + 0) (0 + IZR i * ((1 - 0) / IZR 4))))
  /\ Integral_SimpsonRule (floats (fun x => x)) 0 1 4
     = Integral_SimpsonRule (floats (fun x => x + 0)) 0 1 4.
Proof.
  assert (H : forall i, (0 <= i <= 4)%Z ->
                        (fun x : R => x) (0 + IZR i * ((1 - 0) / IZR 4))
                        = (fun x : R => x + 0) (0 + IZR i * ((1 - 0) / IZR 4)))
    by (intros; cbv beta; lra).
  split; [split; [lia | exact H] |].
  apply (rules_local (fun x => x + 0) (fun x => x) 0 1 4); [lia | exact H].
Defined.

(** ** The rules as functions of the interval *)

(** X13.  On an interval reduced to a point, [a = b], every rule returns
    0, whatever the integrand.
    The integrand may return ints or floats. *)
Theorem rules_empty_interval (f : R -> pynum) (a : R) (n1 n2 n4 : Z) :
  (1 <= n1)%Z -> (2 <= n2)%Z -> (4 <= n4)%Z ->
  Integral_Riemann f a a n1 = Ok 0
  /\ Integral_Trapezoid1 f a a n2 = Ok 0
  /\ Integral_Trapezoid2 f a a n1 = Ok 0
  /\ Integral_SimpsonRule f a a n4 = Ok 0.
Proof.
  intros H1 H2 H4. repeat apply conj.
  - rewrite Integral_Riemann_eval_any, Dx_same by assumption.
    f_equal. ring.
  - rewrite Integral_Trapezoid1_eval_any, Dx_same by assumption.
    f_equal. ring.
  - rewrite Integral_Trapezoid2_eval_any, Dx_same by assumption.
    f_equal. ring.
  - rewrite Integral_SimpsonRule_eval_any, Dx_same by assumption.
    f_equal. ring.
Qed.

Lemma rules_empty_interval_witness :
  ((1 <= 1)%Z /\ (2 <= 2)%Z /\ (4 <= 5)%Z)
  /\ Integral_Riemann (floats (fun x => x + 1)) 2 2 1 = Ok 0.
Proof.
  split; [repeat split; lia |].
  apply (rules_empty_interval (floats (fun x => x + 1)) 2 1 2 5); lia.
Defined.

(** X14.  The Riemann sum and the second trapezoid formulation are
    additive over a split at a partition point: with [c = x_k],
    [1 <= k <= n-1], the value on [a, b] with [n] subdivisions is the value
    on [a, c] with [k] subdivisions plus the value on [c, b] with [n-k].
    The integrand returns a float at every point. *)
Theorem rules_additive (f : R -> R) (a b : R) (n k : Z) :
  (1 <= k)%Z -> (k + 1 <= n)%Z ->
  (exists u v w,
     Integral_Riemann (floats f) a (a + IZR k * ((b - a) / IZR n)) k = Ok u
     /\ Integral_Riemann (floats f) (a + IZR k * ((b - a) / IZR n)) b (n - k) = Ok v
     /\ Integral_Riemann (floats f) a b n = Ok w
     /\ w = u + v)
  /\ (exists u v w,
        Integral_Trapezoid2 (floats f) a (a + IZR k * ((b - a) / IZR n)) k = Ok u
        /\ Integral_Trapezoid2 (floats f) (a + IZR k * ((b - a) / IZR n)) b (n - k)
           = Ok v
        /\ Integral_Trapezoid2 (floats f) a b n = Ok w
        /\ w = u + v).
Proof.
  intros Hk Hkn. split.
  - exact (Integral_Riemann_split f a b n k Hk Hkn).
  - exact (Integral_Trapezoid2_split f a b n k Hk Hkn).
Qed.

Lemma rules_additive_witness :
  ((1 <= 1)%Z /\ (1 + 1 <= 3)%Z)
  /\ exists u v w,
       Integral_Riemann (floats (fun x => x * x)) 0 (0 + IZR 1 * ((3 - 0) / IZR 3)) 1
       = Ok u
       /\ Integral_Riemann (floats (fun x => x * x)) (0 + IZR 1 * ((3 - 0) / IZR 3)) 3
            (3 - 1) = Ok v
       /\ Integral_Riemann (floats (fun x => x * x)) 0 3 3 = Ok w
       /\ w = u + v.
Proof.
  split; [split; lia |].
  apply (rules_additive (fun x => x * x) 0 3 3 1); lia.
Defined.

(** X15.  For [n >= 1] the second trapezoid formulation is half the
    difference between the Riemann sum and the Riemann sum with the bounds
    swapped: [Trapezoid2(a,b) = (Riemann(a,b) - Riemann(b,a)) / 2].
    The integrand returns a float at every point. *)
Theorem Trapezoid2_from_Riemann (f : R -> R) (a b : R) (n : Z) :
  (1 <= n)%Z ->
  exists t r r',
    Integral_Trapezoid2 (floats f) a b n = Ok t
    /\ Integral_Riemann (floats f) a b n = Ok r
    /\ Integral_Riemann (floats f) b a n = Ok r'
    /\ t = (r - r') / 2.
Proof. intros Hn. exact (Integral_Trapezoid2_Riemann f a b n Hn). Qed.

Lemma Trapezoid2_from_Riemann_witness :
  (1 <= 2)%Z
  /\ exists t r r',
       Integral_Trapezoid2 (floats (fun x => x * x)) 0 1 2 = Ok t
       /\ Integral_Riemann (floats (fun x => x * x)) 0 1 2 = Ok r
       /\ Integral_Riemann (floats (fun x => x * x)) 1 0 2 = Ok r'
       /\ t = (r - r') / 2.
Proof.
  split; [lia |].
  apply (Trapezoid2_from_Riemann (fun x => x * x) 0 1 2). lia.
Defined.

(** ** Exact error terms on polynomials *)

Section ErrorTerms.

Variables a b : R.

Lemma Sigma_telescope_defect (G : nat -> R) (c : R) (m : nat) :
  Sigma (fun k => G (S k) - G k + c) m = G m - G 0%nat + INR m * c.
Proof.
  induction m as [| m IH]; [simpl; ring |].
  rewrite Sigma_S, IH, S_INR. ring.
Qed.

Lemma abscissa_S (n : Z) (k : nat) :
  abscissa a b n (Z.of_nat (S k)) = abscissa a b n (Z.of_nat k) + Dx a b n.
Proof. rewrite Nat2Z.inj_succ, <- Z.add_1_r. apply abscissa_succ. Qed.

Lemma abscissa_1_plus (n : Z) (k : nat) :
  abscissa a b n (1 + Z.of_nat k) = abscissa a b n (Z.of_nat k) + Dx a b n.
Proof. rewrite Z.add_comm. apply abscissa_succ. Qed.

Lemma abscissa_0_plus (n : Z) (k : nat) :
  abscissa a b n (0 + Z.of_nat k) = abscissa a b n (Z.of_nat k).
Proof. reflexivity. Qed.

Lemma abscissa_of_to_nat (n : Z) :
  (1 <= n)%Z -> abscissa a b n (Z.of_nat (Z.to_nat n)) = b.
Proof. intros Hn. rewrite Z2Nat.id by lia. apply abscissa_n. lia. Qed.

(** The right-endpoint sum of an affine function overshoots its integral
    by [c1 * (b-a)^2 / (2n)]. *)
Lemma Integral_Riemann_affine (c0 c1 : R) (n : Z) :
  (1 <= n)%Z ->
  Integral_Riemann (floats (fun x => c0 + c1 * x)) a b n
  = Ok (c0 * (b - a) + c1 * (b ^ 2 - a ^ 2) / 2
        + c1 * (b - a) ^ 2 / (2 * IZR n)).
Proof.
  intros Hn. rewrite Integral_Riemann_eval by assumption. f_equal.
  rewrite <- Sigma_scal.
  pose (P := fun x => c0 * x + c1 * x ^ 2 / 2).
  rewrite (Sigma_ext _
             (fun k => P (abscissa a b n (Z.of_nat (S k)))
                       - P (abscissa a b n (Z.of_nat k))
                       + c1 * Dx a b n ^ 2 / 2)).
  - rewrite (Sigma_telescope_defect
               (fun k => P (abscissa a b n (Z.of_nat k)))).
    rewrite abscissa_of_to_nat by assumption.
    change (Z.of_nat 0) with 0%Z. rewrite abscissa_0, INR_to_nat by lia.
    unfold P, Dx. field. apply IZR_nonzero. lia.
  - intros k _. rewrite abscissa_1_plus, abscissa_S. unfold P. field.
Qed.

(** The trapezoid value of a polynomial of degree at most 2 overshoots its
    integral by [c2 * (b-a)^3 / (6 n^2)]: the rule is exact on affine
    functions and of second order. *)
Lemma Integral_Trapezoid2_quadratic (c0 c1 c2 : R) (n : Z) :
  (1 <= n)%Z ->
  Integral_Trapezoid2 (floats (fun x => c0 + c1 * x + c2 * x ^ 2)) a b n
  = Ok (c0 * (b - a) + c1 * (b ^ 2 - a ^ 2) / 2 + c2 * (b ^ 3 - a ^ 3) / 3
        + c2 * (b - a) ^ 3 / (6 * IZR n ^ 2)).
Proof.
  intros Hn. rewrite Integral_Trapezoid2_eval by assumption. f_equal.
  rewrite half_decimal.
  pose (p := fun x => c0 + c1 * x + c2 * x ^ 2).
  pose (P := fun x => c0 * x + c1 * x ^ 2 / 2 + c2 * x ^ 3 / 3).
  transitivity
    (Sigma (fun k => 1 * p (abscissa a b n (0 + Z.of_nat k))
                     + 1 * p (abscissa a b n (1 + Z.of_nat k)))
           (Z.to_nat n) * (Dx a b n / 2)).
  { rewrite Sigma_lin. unfold p. field. }
  rewrite <- Sigma_scal.
  rewrite (Sigma_ext _
             (fun k => P (abscissa a b n (Z.of_nat (S k)))
                       - P (abscissa a b n (Z.of_nat k))
                       + c2 * Dx a b n ^ 3 / 6)).
  - rewrite (Sigma_telescope_defect
               (fun k => P (abscissa a b n (Z.of_nat k)))).
    rewrite abscissa_of_to_nat by assumption.
    change (Z.of_nat 0) with 0%Z. rewrite abscissa_0, INR_to_nat by lia.
    unfold P, Dx. field. apply IZR_nonzero. lia.
  - intros k _. rewrite abscissa_1_plus, abscissa_0_plus, abscissa_S.
    unfold p, P. field.
Qed.

Lemma Integral_Trapezoid1_quadratic (c0 c1 c2 : R) (n : Z) :
  (2 <= n)%Z ->
  Integral_Trapezoid1 (floats (fun x => c0 + c1 * x + c2 * x ^ 2)) a b n
  = Ok (c0 * (b - a) + c1 * (b ^ 2 - a ^ 2) / 2 + c2 * (b ^ 3 - a ^ 3) / 3
        + c2 * (b - a) ^ 3 / (6 * IZR n ^ 2)).
Proof.
  intros Hn. rewrite Integral_Trapezoid_agree by assumption.
  apply Integral_Trapezoid2_quadratic. lia.
Qed.

(** Simpson's value of a polynomial of degree at most 4 overshoots its
    integral by [c4 * 2*(b-a)^5 / (15 n^4)]: the rule is of fourth
    order. *)
Lemma Integral_SimpsonRule_quartic (c0 c1 c2 c3 c4 : R) (n : Z) :
  (4 <= n)%Z -> Z.even n = true ->
  Integral_SimpsonRule
    (floats (fun x => c0 + c1 * x + c2 * x ^ 2 + c3 * x ^ 3 + c4 * x ^ 4)) a b n
  = Ok (c0 * (b - a) + c1 * (b ^ 2 - a ^ 2) / 2 + c2 * (b ^ 3 - a ^ 3) / 3
        + c3 * (b ^ 4 - a ^ 4) / 4 + c4 * (b ^ 5 - a ^ 5) / 5
        + c4 * (2 * (b - a) ^ 5) / (15 * IZR n ^ 4)).
Proof.
  intros Hn He. rewrite Integral_SimpsonRule_panels by assumption.
  pose proof (even_half n He) as E. f_equal.
  rewrite <- Sigma_scal.
  pose (P := fun x => c0 * x + c1 * x ^ 2 / 2 + c2 * x ^ 3 / 3
                      + c3 * x ^ 4 / 4 + c4 * x ^ 5 / 5).
  pose (G := fun k : nat => P (abscissa a b n (2 * Z.of_nat k))).
  rewrite (Sigma_ext _
             (fun k => G (S k) - G k + c4 * (4 * Dx a b n ^ 5) / 15)).
  - rewrite (Sigma_telescope_defect G). unfold G.
    replace (2 * Z.of_nat (Z.to_nat (n / 2)))%Z with n by lia.
    change (2 * Z.of_nat 0)%Z with 0%Z.
    rewrite abscissa_0, abscissa_n, INR_to_nat by lia.
    replace (IZR (n / 2)) with (IZR n / 2)
      by (rewrite E at 1; rewrite mult_IZR; field).
    unfold P, Dx. field. apply IZR_nonzero. lia.
  - intros k _. unfold G.
    replace (abscissa a b n (1 + 2 * Z.of_nat k))
      with (abscissa a b n (2 * Z.of_nat k) + Dx a b n)
      by (unfold abscissa; rewrite plus_IZR; ring).
    replace (abscissa a b n (2 + 2 * Z.of_nat k))
      with (abscissa a b n (2 * Z.of_nat k) + 2 * Dx a b n)
      by (unfold abscissa; rewrite plus_IZR; ring).
    replace (abscissa a b n (2 * Z.of_nat (S k)))
      with (abscissa a b n (2 * Z.of_nat k) + 2 * Dx a b n)
      by (unfold abscissa; rewrite Nat2Z.inj_succ, <- Z.add_1_r,
            Z.mul_add_distr_l, plus_IZR; simpl (IZR (2 * 1)); ring).
    unfold P. field.
Qed.

End ErrorTerms.

(** ** The standard normal density *)

Section Normal.

Lemma sqrt_2PI_pos : 0 < sqrt (2 * PI).
Proof. apply sqrt_lt_R0. pose proof PI_RGT_0. lra. Qed.

Lemma exp_le (x y : R) : x <= y -> exp x <= exp y.
Proof.
  intros [H | ->]; [left; now apply exp_increasing | right; reflexivity].
Qed.

Lemma nor_even (x : R) : nor (- x) = nor x.
Proof. unfold nor. do 2 f_equal. field. Qed.

Lemma nor_nonneg (x : R) : 0 <= nor x.
Proof.
  unfold nor. apply Rlt_le.
  apply Rdiv_lt_0_compat; [apply exp_pos | apply sqrt_2PI_pos].
Qed.

Lemma nor_0 : nor 0 = 1 / sqrt (2 * PI).
Proof.
  unfold nor. replace (- 0 ^ 2 / 2) with 0 by field. now rewrite exp_0.
Qed.

(** The density decreases with the distance to 0. *)
Lemma nor_antitone (x y : R) : x ^ 2 <= y ^ 2 -> nor y <= nor x.
Proof.
  intros H. unfold nor.
  apply Rmult_le_compat_r;
    [apply Rlt_le, Rinv_0_lt_compat, sqrt_2PI_pos |].
  apply exp_le. lra.
Qed.

Lemma nor_le_0 (x : R) : nor x <= nor 0.
Proof. apply nor_antitone. pose proof (pow2_ge_0 x). lra. Qed.

End Normal.

(** ** Orders of the rules, read off polynomials *)

(** X16.  On an affine function [c0 + c1*x] the Riemann sum returns the
    integral plus [c1*(b-a)^2 / (2n)]: the right-endpoint rule is exact on
    constants only and its error decreases like [1/n]. *)
Theorem Riemann_affine_error (c0 c1 a b : R) (n : Z) :
  (1 <= n)%Z ->
  Integral_Riemann (floats (fun x => c0 + c1 * x)) a b n
  = Ok (c0 * (b - a) + c1 * (b ^ 2 - a ^ 2) / 2
        + c1 * (b - a) ^ 2 / (2 * IZR n)).
Proof. intros Hn. exact (Integral_Riemann_affine a b c0 c1 n Hn). Qed.

Lemma Riemann_affine_error_witness :
  (1 <= 4)%Z
  /\ Integral_Riemann (floats (fun x => 1 + 2 * x)) 0 1 4
     = Ok (1 * (1 - 0) + 2 * (1 ^ 2 - 0 ^ 2) / 2
           + 2 * (1 - 0) ^ 2 / (2 * IZR 4)).
Proof.
  split; [lia |].
  apply (Riemann_affine_error 1 2 0 1 4). lia.
Defined.

(** X17.  On a polynomial [c0 + c1*x + c2*x^2] both trapezoid formulations
    return the integral plus [c2*(b-a)^3 / (6 n^2)]: the trapezoid rule is
    exact on affine functions and its error decreases like [1/n^2]. *)
Theorem Trapezoid_quadratic_error (c0 c1 c2 a b : R) (n1 n2 : Z) :
  (1 <= n1)%Z -> (2 <= n2)%Z ->
  Integral_Trapezoid2 (floats (fun x => c0 + c1 * x + c2 * x ^ 2)) a b n1
  = Ok (c0 * (b - a) + c1 * (b ^ 2 - a ^ 2) / 2 + c2 * (b ^ 3 - a ^ 3) / 3
        + c2 * (b - a) ^ 3 / (6 * IZR n1 ^ 2))
  /\ Integral_Trapezoid1 (floats (fun x => c0 + c1 * x + c2 * x ^ 2)) a b n2
     = Ok (c0 * (b - a) + c1 * (b ^ 2 - a ^ 2) / 2 + c2 * (b ^ 3 - a ^ 3) / 3
           + c2 * (b - a) ^ 3 / (6 * IZR n2 ^ 2)).
Proof.
  intros H1 H2. split.
  - now apply Integral_Trapezoid2_quadratic.
  - now apply Integral_Trapezoid1_quadratic.
Qed.

Lemma Trapezoid_quadratic_error_witness :
  ((1 <= 1)%Z /\ (2 <= 2)%Z)
  /\ Integral_Trapezoid2 (floats (fun x => 1 + 2 * x + 3 * x ^ 2)) 0 1 1
     = Ok (1 * (1 - 0) + 2 * (1 ^ 2 - 0 ^ 2) / 2 + 3 * (1 ^ 3 - 0 ^ 3) / 3
           + 3 * (1 - 0) ^ 3 / (6 * IZR 1 ^ 2)).
Proof.
  split; [split; lia |].
  apply (Trapezoid_quadratic_error 1 2 3 0 1 1 2); lia.
Defined.

(** X18.  On a polynomial of degree at most 4 with leading coefficient
    [c4], Simpson's rule with an even [n >= 4] returns the integral plus
    [c4 * 2*(b-a)^5 / (15 n^4)]: its error decreases like [1/n^4]. *)
Theorem Simpson_quartic_error (c0 c1 c2 c3 c4 a b : R) (n : Z) :
  (4 <= n)%Z -> Z.even n = true ->
  Integral_SimpsonRule
    (floats (fun x => c0 + c1 * x + c2 * x ^ 2 + c3 * x ^ 3 + c4 * x ^ 4)) a b n
  = Ok (c0 * (b - a) + c1 * (b ^ 2 - a ^ 2) / 2 + c2 * (b ^ 3 - a ^ 3) / 3
        + c3 * (b ^ 4 - a ^ 4) / 4 + c4 * (b ^ 5 - a ^ 5) / 5
        + c4 * (2 * (b - a) ^ 5) / (15 * IZR n ^ 4)).
Proof.
  intros Hn He. exact (Integral_SimpsonRule_quartic a b c0 c1 c2 c3 c4 n Hn He).
Qed.

Lemma Simpson_quartic_error_witness :
  ((4 <= 4)%Z /\ Z.even 4 = true)
  /\ Integral_SimpsonRule
       (floats (fun x => 0 + 0 * x + 0 * x ^ 2 + 0 * x ^ 3 + 1 * x ^ 4)) 0 1 4
     = Ok (0 * (1 - 0) + 0 * (1 ^ 2 - 0 ^ 2) / 2 + 0 * (1 ^ 3 - 0 ^ 3) / 3
           + 0 * (1 ^ 4 - 0 ^ 4) / 4 + 1 * (1 ^ 5 - 0 ^ 5) / 5
           + 1 * (2 * (1 - 0) ^ 5) / (15 * IZR 4 ^ 4)).
Proof.
  split; [split; [lia | reflexivity] |].
  apply (Simpson_quartic_error 0 0 0 0 1 0 1 4); [lia | reflexivity].
Defined.

(** ** The density *)

(** X21.  The density [nor] is even, never negative, and largest at 0,
    where it is [1 / sqrt(2*pi)]. *)
Theorem nor_shape (x : R) :
  nor (- x) = nor x
  /\ 0 <= nor x <= nor 0
  /\ nor 0 = 1 / sqrt (2 * PI).
Proof.
  split; [apply nor_even |].
  split; [split; [apply nor_nonneg | apply nor_le_0] | apply nor_0].
Qed.
